(** * WeatherAgent front end: the draft form and the submission proxy

    A shallow embedding of [src/app/page.tsx] (the form component with its
    time-of-day arithmetic and city sanitation) and of the [POST] route
    handler that forwards a subscription to the upsert endpoint.

    JavaScript strings are sequences of UTF-16 code units ([list N]);
    the numbers of the time arithmetic are integers, kept in [Z], with
    the rounding of a double written out where a sum can leave the range
    in which doubles are exact; an exception is an [outcome] carrying the
    error's message, and a promise that never settles is [Never]. What belongs to the
    runtime and not to the repository (the Unicode tables behind
    [toLowerCase], [Intl.DateTimeFormat], [JSON.parse], the messages of
    the [Response] constructor's errors, the network) is a parameter of
    the definitions that use it. *)

From Stdlib Require Import ZArith QArith Ascii String.
From stdpp Require Import base decidable option list gmap.

Local Close Scope Q_scope.
Local Open Scope Z_scope.

(** ** Strings of the runtime *)

Module JS.

Abbreviation jsstring := (list N) (only parsing).

(** A source literal, code unit by code unit (ASCII literals only). *)
Definition js (s : string) : list N :=
  List.map N_of_ascii (list_ascii_of_string s).

(** ECMAScript's [WhiteSpace] and [LineTerminator] code points, which
    [String.prototype.trim] strips: TAB, VT, FF, SP, NBSP, ZWNBSP, the
    Unicode space separators, and LF, CR, LS, PS. *)
Definition isWhiteSpace (c : N) : bool :=
  (bool_decide (c ∈ [9; 10; 11; 12; 13; 32; 160; 5760; 8232; 8233; 8239; 8287; 12288; 65279])
   || ((8192 <=? c) && (c <=? 8202)))%N.

Fixpoint dropWhile {A} (p : A → bool) (l : list A) : list A :=
  match l with
  | [] => []
  | x :: t => if p x then dropWhile p t else l
  end.

Definition trimStart (s : jsstring) : jsstring := dropWhile isWhiteSpace s.
Definition trimEnd (s : jsstring) : jsstring := rev (dropWhile isWhiteSpace (rev s)).

(** [s.trim()] *)
Definition trim (s : jsstring) : jsstring := trimEnd (trimStart s).

(** [s.slice(0, n)] for a non-negative [n], on a string or an array. *)
Definition slice0 {A} (n : nat) (s : list A) : list A := take n s.

(** [a || b] on strings: the empty string is falsy. *)
Definition or_str (a b : jsstring) : jsstring :=
  match a with [] => b | _ => a end.

(** [a || b] where [a] may be [undefined]. *)
Definition or_opt (a : option jsstring) (b : jsstring) : jsstring :=
  match a with Some (c :: s) => c :: s | _ => b end.

(** [!v] for a string. *)
Definition falsy (s : jsstring) : bool :=
  match s with [] => true | _ => false end.

(** Decimal digits. *)
Definition isDigit (c : N) : bool := ((48 <=? c) && (c <=? 57))%N.
Definition digitVal (c : N) : Z := Z.of_N c - 48.

(** [Number(s)] for a string of decimal digits. *)
Definition Number_of_digits (s : jsstring) : Z :=
  fold_left (fun acc c => 10 * acc + digitVal c) s 0.

(** The code units of a decimal numeral. *)
Fixpoint uint_units (d : Decimal.uint) : jsstring :=
  match d with
  | Decimal.Nil => []
  | Decimal.D0 d => 48%N :: uint_units d
  | Decimal.D1 d => 49%N :: uint_units d
  | Decimal.D2 d => 50%N :: uint_units d
  | Decimal.D3 d => 51%N :: uint_units d
  | Decimal.D4 d => 52%N :: uint_units d
  | Decimal.D5 d => 53%N :: uint_units d
  | Decimal.D6 d => 54%N :: uint_units d
  | Decimal.D7 d => 55%N :: uint_units d
  | Decimal.D8 d => 56%N :: uint_units d
  | Decimal.D9 d => 57%N :: uint_units d
  end.

(** [String(n)] for an integer [n]. *)
Definition String_of_int (n : Z) : jsstring :=
  if n <? 0
  then 45%N :: uint_units (N.to_uint (Z.to_N (- n)))
  else uint_units (N.to_uint (Z.to_N n)).

(** [s.padStart(n, fill)] *)
Definition padStart (n : nat) (fill s : jsstring) : jsstring :=
  let need := (n - length s)%nat in
  take need (concat (replicate need fill)) ++ s.

(** The outcome of an evaluation that may throw; an exception is kept as
    its [message]. *)
Inductive outcome (A : Type) : Type :=
| Ret (a : A)
| Throw (message : jsstring).
Arguments Ret {A} a.
Arguments Throw {A} message.

(** Sequencing: an exception of the first step is the exception of the
    whole; [x ← m; k] is stdpp's notation for it. *)
#[export] Instance outcome_bind : MBind outcome := fun A B k m =>
  match m with
  | Ret a => k a
  | Throw e => Throw e
  end.
#[export] Instance outcome_ret : MRet outcome := fun A a => Ret a.

(** What [await] comes to: the promise settles, with a value or with the
    exception of a rejection, or it never does and the function that
    awaits it goes no further. *)
Inductive awaited (A : Type) : Type :=
| Settled (o : outcome A)
| Never.
Arguments Settled {A} o.
Arguments Never {A}.

(** The double nearest to an integer, ties going to the even
    significand: what [a + b] evaluates to for two integral numbers
    whose exact sum is that integer. Every integer up to 2^53 in
    magnitude is a double; beyond, 53 significant bits are kept. (The sum
    of a double and a minute of the day stays below the overflow
    threshold.) *)
Definition nearest_double (z : Z) : Z :=
  if Z.abs z <=? 2 ^ 53 then z
  else
    let e := Z.log2 (Z.abs z) - 52 in
    let q := Z.abs z / 2 ^ e in
    let r := Z.abs z mod 2 ^ e in
    let q' := if 2 * r <? 2 ^ e then q
              else if 2 ^ e <? 2 * r then q + 1
              else if Z.even q then q else q + 1 in
    Z.sgn z * (q' * 2 ^ e).

End JS.

Import JS.

(** ** City sanitation *)

Module Cities.

Section WithLowerCase.

(** [String.prototype.toLowerCase]; its Unicode case tables are the
    runtime's. *)
Variable toLowerCase : list N → list N.

(** The loop state of [clampCities]: the [seen] set and the [out] array. *)
Definition clamp_state : Type := gset (list N) * list (list N).

(** One iteration of [for (const raw of arr)]; an entry that is [null] or
    [undefined] (a hole of the array) reads as the empty string. *)
Definition clamp_step (st : clamp_state) (raw : option (list N)) : clamp_state :=
  let v := trim (default [] raw) in
  if falsy v then st
  else
    let key := toLowerCase v in
    if decide (key ∈ st.1) then st
    else ({[ key ]} ∪ st.1, st.2 ++ [v]).

Definition clampCities (arr : list (option (list N))) : list (list N) :=
  slice0 10 (foldl clamp_step (∅, []) arr).2.

(** The loop invariant behind the list invariant: [out] has no two
    entries with one lowercase form, every such form is in [seen], and
    every entry is a trimmed, non-empty string. *)
Definition clamp_inv (st : clamp_state) : Prop :=
  NoDup (toLowerCase <$> st.2)
  ∧ (∀ v, v ∈ st.2 → toLowerCase v ∈ st.1)
  ∧ (∀ v, v ∈ st.2 → trim v ≠ []).

(** A list as the form keeps it: at most ten entries, each of them a
    trimmed, non-empty string, no two with one lowercase form. *)
Definition canonical (l : list (list N)) : Prop :=
  (length l ≤ 10)%nat
  ∧ Forall (fun c => trim c = c ∧ c ≠ []) l
  ∧ NoDup (toLowerCase <$> l).

(** What the specification says of the same list, stage by stage: trim
    every entry, drop the empty ones, drop an entry when an earlier entry
    has the same lowercase form, keep the first ten. *)
Fixpoint drop_seen (earlier l : list (list N)) : list (list N) :=
  match l with
  | [] => []
  | v :: t =>
      if decide (Exists (fun u => toLowerCase u = toLowerCase v) earlier)
      then drop_seen (earlier ++ [v]) t
      else v :: drop_seen (earlier ++ [v]) t
  end.

Definition clampCities_spec (arr : list (list N)) : list (list N) :=
  take 10 (drop_seen [] (List.filter (fun v => negb (falsy v)) (List.map trim arr))).

End WithLowerCase.

(** Lowercasing of ASCII text, where [toLowerCase] touches the letters
    A to Z only. *)
Definition isAscii (s : list N) : bool := forallb (fun c => (c <? 128)%N) s.
Definition ascii_lower (s : list N) : list N :=
  List.map (fun c => if ((65 <=? c) && (c <=? 90))%N then (c + 32)%N else c) s.

End Cities.

(** ** The loose e-mail shape *)

Module Email.

(** The pieces of the pattern of [isEmailLike]: one or more code units
    of a class, or one given code unit. *)
Inductive item :=
| OnePlus (p : N → bool)
| Char (c : N).

(** [/^...$/.test(s)] for a sequence of such pieces, trying every way to
    split the string as a backtracking matcher does. *)
Fixpoint matches (items : list item) (s : list N) {struct items} : bool :=
  match items with
  | [] => match s with [] => true | _ => false end
  | Char c :: rest =>
      match s with
      | x :: t => (x =? c)%N && matches rest t
      | [] => false
      end
  | OnePlus p :: rest =>
      (fix more (s : list N) : bool :=
         match s with
         | x :: t => p x && (matches rest t || more t)
         | [] => false
         end) s
  end.

(** The class [[^\s@]]; [\s] is the white space that [trim] strips. *)
Definition notSpaceOrAt (c : N) : bool := negb (isWhiteSpace c) && negb (c =? 64)%N.

(** [^[^\s@]+@[^\s@]+\.[^\s@]+$] *)
Definition email_pattern : list item :=
  [OnePlus notSpaceOrAt; Char 64; OnePlus notSpaceOrAt; Char 46; OnePlus notSpaceOrAt].

Definition isEmailLike (v : list N) : bool := matches email_pattern (trim v).

End Email.

(** ** Time-of-day arithmetic *)

Module TimeOfDay.

(** One entry of [Intl.DateTimeFormat(...).formatToParts(...)]. *)
Record DateTimePart := { part_type : list N; part_value : list N }.

(** What [formatToParts(new Date())] yields per time zone at the instant
    of the call; a zone that [Intl] does not know throws a [RangeError]. *)
Definition Clock : Type := list N → outcome (list DateTimePart).

(** [parts.find((p) => p.type === ty)?.value] *)
Definition find_part (ty : list N) (parts : list DateTimePart) : option (list N) :=
  part_value <$> List.find (fun p => bool_decide (part_type p = ty)) parts.

Definition nowHHMMInTimeZone (clock : Clock) (timezone : list N) : outcome (list N) :=
  parts ← clock timezone;
  let hh := default (js "00") (find_part (js "hour") parts) in
  let mm := default (js "00") (find_part (js "minute") parts) in
  mret (hh ++ js ":" ++ mm).

(** [/^(\d{2}):(\d{2})$/.exec(s)]: the two capture groups. *)
Definition exec_HHMM (s : list N) : option (list N * list N) :=
  match s with
  | [a; b; c; d; e] =>
      if isDigit a && isDigit b && (c =? 58)%N && isDigit d && isDigit e
      then Some ([a; b], [d; e])
      else None
  | _ => None
  end.

(** [/^\d{2}:\d{2}$/.test(s)] *)
Definition test_HHMM (s : list N) : bool := bool_decide (is_Some (exec_HHMM s)).

Record HHMM := { hh : Z; mm : Z }.

Definition parseHHMM (s : list N) : option HHMM :=
  match exec_HHMM (trim s) with
  | None => None
  | Some (m1, m2) =>
      let hh := Number_of_digits m1 in
      let mm := Number_of_digits m2 in
      if (hh <? 0) || (hh >? 23) || (mm <? 0) || (mm >? 59) then None
      else Some {| hh := hh; mm := mm |}
  end.

Definition minutesOfDay (hh mm : Z) : Z := hh * 60 + mm.

Definition hhmmToMinutes (s : list N) : option Z :=
  match parseHHMM s with
  | None => None
  | Some p => Some (minutesOfDay (hh p) (mm p))
  end.

(** [minutesToAdd] is an integral number (the form passes
    [MIN_AHEAD_MINUTES]). The sum is a sum of doubles, rounded when it
    leaves the range of exact integers; [%] on doubles is exact and takes
    the sign of the dividend ([Z.rem]); from there on the numbers are
    below 2880. [Math.floor(total / 60)] is [Z.div]. *)
Definition addMinutesHHMMInTimeZone (clock : Clock) (timezone : list N) (minutesToAdd : Z)
  : outcome (list N) :=
  base ← nowHHMMInTimeZone clock timezone;
  match parseHHMM base with
  | None => mret base
  | Some p =>
      let total := nearest_double (minutesOfDay (hh p) (mm p) + minutesToAdd) in
      let total := Z.rem (Z.rem total 1440 + 1440) 1440 in
      let hh := padStart 2 (js "0") (String_of_int (total / 60)) in
      let mm := padStart 2 (js "0") (String_of_int (Z.rem total 60)) in
      mret (hh ++ js ":" ++ mm)
  end.

(** [None] is the source's [null]. *)
Definition minutesUntilSend (clock : Clock) (timezone preferredHHMM : list N)
  : outcome (option Z) :=
  nowStr ← nowHHMMInTimeZone clock timezone;
  match parseHHMM nowStr, parseHHMM preferredHHMM with
  | Some nowP, Some prefP =>
      let nowMin := minutesOfDay (hh nowP) (mm nowP) in
      let prefMin := minutesOfDay (hh prefP) (mm prefP) in
      if prefMin >=? nowMin then mret (Some (prefMin - nowMin))
      else mret (Some ((1440 - nowMin) + prefMin))
  | _, _ => mret None
  end.

Definition isAtLeastMinutesAhead (clock : Clock) (timezone preferredHHMM : list N) (minAhead : Z)
  : outcome bool :=
  diff ← minutesUntilSend clock timezone preferredHHMM;
  mret (match diff with
        | None => false
        | Some d => d >=? minAhead
        end).

(** The text [addMinutesHHMMInTimeZone] builds for a minute of the day,
    and whether [parseHHMM] reads that minute back from it. *)
Definition formatted (total : Z) : list N :=
  padStart 2 (js "0") (String_of_int (total / 60)) ++ js ":"
    ++ padStart 2 (js "0") (String_of_int (Z.rem total 60)).

Definition reads_back (total : Z) : bool :=
  match parseHHMM (formatted total) with
  | Some p => (hh p =? total / 60) && (mm p =? Z.rem total 60)
  | None => false
  end.

(** A clock that reads [hour]:[minute] in every zone, the way [en-US]
    formats it: hour, literal, minute. *)
Definition clock_at (hour minute : string) : Clock := fun _ =>
  Ret [ {| part_type := js "hour"; part_value := js hour |};
        {| part_type := js "literal"; part_value := js ":" |};
        {| part_type := js "minute"; part_value := js minute |} ].

(** A clock that reads [hour]:[minute] in the zones of a list; for any
    other zone [Intl.DateTimeFormat] throws its [RangeError]. *)
Definition clock_of (zones : list (list N)) (hour minute : string) : Clock := fun tz =>
  if decide (tz ∈ zones) then clock_at hour minute tz
  else Throw (js "Invalid time zone specified: " ++ tz).

End TimeOfDay.

(** ** The draft form *)

Module Form.

Import Cities TimeOfDay.

Inductive Units := metric | imperial.

Record Draft := {
  email : list N;
  timezone : list N;
  preferred_time : list N;
  units : Units;
  cities : list (list N);
  is_active : bool
}.

(** [Partial<Draft>] as read back from [localStorage]: every field may be
    absent; [units] is whatever string was stored, an entry of [cities]
    may be [null], and [is_active] is present only when it is a boolean. *)
Record PartialDraft := {
  p_email : option (list N);
  p_timezone : option (list N);
  p_preferred_time : option (list N);
  p_units : option (list N);
  p_cities : option (list (option (list N)));
  p_is_active : option bool
}.

(** A stored draft whose time is no time of the day. *)
Definition stored_bad_time : PartialDraft :=
  {| p_email := None; p_timezone := None; p_preferred_time := Some (js "99:99");
     p_units := None; p_cities := None; p_is_active := None |}.

Definition MIN_AHEAD_MINUTES : Z := 2.

Inductive ToastKind := ok | err.
Record Toast := { kind : ToastKind; msg : list N }.

(** The component's [useState] cells. *)
Record FormState := {
  draft : Draft;
  cityInput : list N;
  saving : bool;
  toast : option Toast;
  editingIndex : option nat;
  editingValue : list N
}.

Definition setDraft (f : Draft → Draft) (st : FormState) : FormState :=
  {| draft := f (draft st); cityInput := cityInput st; saving := saving st;
     toast := toast st; editingIndex := editingIndex st;
     editingValue := editingValue st |}.

Definition setCities (cs : list (list N)) (d : Draft) : Draft :=
  {| email := email d; timezone := timezone d; preferred_time := preferred_time d;
     units := units d; cities := cs; is_active := is_active d |}.

Definition setPreferredTime (t : list N) (d : Draft) : Draft :=
  {| email := email d; timezone := timezone d; preferred_time := t;
     units := units d; cities := cities d; is_active := is_active d |}.

Definition setEditing (i : option nat) (v : list N) (st : FormState) : FormState :=
  {| draft := draft st; cityInput := cityInput st; saving := saving st;
     toast := toast st; editingIndex := i; editingValue := v |}.

Definition setCityInput (v : list N) (st : FormState) : FormState :=
  {| draft := draft st; cityInput := v; saving := saving st;
     toast := toast st; editingIndex := editingIndex st;
     editingValue := editingValue st |}.

Definition setSavingToast (b : bool) (t : option Toast) (st : FormState) : FormState :=
  {| draft := draft st; cityInput := cityInput st; saving := b;
     toast := t; editingIndex := editingIndex st;
     editingValue := editingValue st |}.

Definition COMMON_TIMEZONES : list (list N) :=
  [ js "UTC"; js "America/New_York"; js "America/Chicago"; js "America/Denver";
    js "America/Los_Angeles"; js "Europe/London"; js "Europe/Paris"; js "Asia/Kolkata";
    js "Asia/Tokyo"; js "Asia/Singapore"; js "Australia/Sydney" ].

(** What [JSON.parse] reads back from the [JSON.stringify(draft)] that
    the persist effect stores: every field present, [units] as its
    string. *)
Definition persisted (d : Draft) : PartialDraft :=
  {| p_email := Some (email d);
     p_timezone := Some (timezone d);
     p_preferred_time := Some (preferred_time d);
     p_units := Some (match units d with metric => js "metric" | imperial => js "imperial" end);
     p_cities := Some (Some <$> cities d);
     p_is_active := Some (is_active d) |}.

(** The first [useState] value: [detectedTz] and the time read in it. *)
Definition initialDraft (detectedTz now : list N) : Draft :=
  {| email := []; timezone := detectedTz; preferred_time := now;
     units := metric; cities := [js "London"]; is_active := true |}.

Definition initialState (detectedTz now : list N) : FormState :=
  {| draft := initialDraft detectedTz now; cityInput := []; saving := false;
     toast := None; editingIndex := None; editingValue := [] |}.

(** [next[i] = v] on a copy of the array: in range it replaces, past the
    end it extends the array, leaving holes that read as [undefined]. *)
Definition array_set (next : list (list N)) (i : nat) (v : list N) : list (option (list N)) :=
  if decide (i < length next)%nat
  then <[ i := Some v ]> (Some <$> next)
  else (Some <$> next) ++ replicate (i - length next) None ++ [Some v].

(** [arr.filter((_, i) => i !== idx)] *)
Definition remove_at (idx : nat) (arr : list (list N)) : list (list N) :=
  (imap (fun i c => if decide (i = idx) then None else Some c) arr) ≫= option_list.

Section WithLowerCase.

Variable toLowerCase : list N → list N.

(** The updater of the restore effect, for a stored draft [parsed]. *)
Definition restoreDraft (parsed : PartialDraft) (prev : Draft) : Draft :=
  let tz := trim (or_opt (p_timezone parsed) (or_str (timezone prev) (js "UTC"))) in
  {| email := default (email prev) (p_email parsed);
     timezone := tz;
     preferred_time :=
       slice0 5 (or_opt (p_preferred_time parsed) (or_str (preferred_time prev) (js "09:00")));
     units := if bool_decide (p_units parsed = Some (js "imperial")) then imperial else metric;
     cities := clampCities toLowerCase (default (Some <$> cities prev) (p_cities parsed));
     is_active := default (is_active prev) (p_is_active parsed) |}.

(** The restore effect: nothing stored, or text that [JSON.parse]
    rejects, leaves the draft as it is. *)
Definition restore (stored : option PartialDraft) (st : FormState) : FormState :=
  match stored with
  | None => st
  | Some parsed => setDraft (restoreDraft parsed) st
  end.

Definition addCity (st : FormState) : FormState :=
  let v := trim (cityInput st) in
  if falsy v then st
  else
    setCityInput []
      (setDraft (fun d => setCities (clampCities toLowerCase (Some <$> (cities d ++ [v]))) d) st).

Definition removeCity (idx : nat) (st : FormState) : FormState :=
  let st' := setDraft (fun d => setCities (remove_at idx (cities d)) d) st in
  if decide (editingIndex st = Some idx) then setEditing None [] st' else st'.

Definition startEditCity (idx : nat) (st : FormState) : FormState :=
  setEditing (Some idx) (default [] (cities (draft st) !! idx)) st.

Definition cancelEditCity (st : FormState) : FormState := setEditing None [] st.

Definition commitEditCity (st : FormState) : FormState :=
  match editingIndex st with
  | None => st
  | Some i =>
      let v := trim (editingValue st) in
      if falsy v then st
      else
        setEditing None []
          (setDraft (fun d => setCities (clampCities toLowerCase (array_set (cities d) i v)) d) st)
  end.

(** The entries of the time zone [select]:
    [clampCities([draft.timezone, ...COMMON_TIMEZONES])]. *)
Definition timezoneOptions (d : Draft) : list (list N) :=
  clampCities toLowerCase (Some <$> (timezone d :: COMMON_TIMEZONES)).

(** What the user can do to the form between two submissions. *)
Inductive Event :=
| EditEmail (v : list N)
| EditTimezone (v : list N)
| EditPreferredTime (v : list N)
| PickUnits (u : Units)
| ToggleActive
| TypeCity (v : list N)
| AddCity
| RemoveCity (idx : nat)
| StartEditCity (idx : nat)
| TypeEditCity (v : list N)
| CancelEditCity
| CommitEditCity
| LoadStored (stored : option PartialDraft).

(** Equal up to case, as the sanitation compares entries. *)
Definition ci_equal (a b : list N) : Prop := toLowerCase a = toLowerCase b.

(** The invariant of the draft's city list: at most ten entries, none
    blank, no two equal up to case. *)
Definition cities_ok (l : list (list N)) : Prop :=
  (length l ≤ 10)%nat
  ∧ (∀ c, c ∈ l → trim c ≠ [])
  ∧ (∀ i j a b, i ≠ j → l !! i = Some a → l !! j = Some b → ¬ ci_equal a b).

Definition handle (e : Event) (st : FormState) : FormState :=
  match e with
  | EditEmail v =>
      setDraft (fun d => {| email := v; timezone := timezone d;
                            preferred_time := preferred_time d; units := units d;
                            cities := cities d; is_active := is_active d |}) st
  | EditTimezone v =>
      setDraft (fun d => {| email := email d; timezone := v;
                            preferred_time := preferred_time d; units := units d;
                            cities := cities d; is_active := is_active d |}) st
  | EditPreferredTime v => setDraft (setPreferredTime v) st
  | PickUnits u =>
      setDraft (fun d => {| email := email d; timezone := timezone d;
                            preferred_time := preferred_time d; units := u;
                            cities := cities d; is_active := is_active d |}) st
  | ToggleActive =>
      setDraft (fun d => {| email := email d; timezone := timezone d;
                            preferred_time := preferred_time d; units := units d;
                            cities := cities d; is_active := negb (is_active d) |}) st
  | TypeCity v => setCityInput v st
  | AddCity => addCity st
  | RemoveCity idx => removeCity idx st
  | StartEditCity idx => startEditCity idx st
  | TypeEditCity v => setEditing (editingIndex st) v st
  | CancelEditCity => cancelEditCity st
  | CommitEditCity => commitEditCity st
  | LoadStored stored => restore stored st
  end.

End WithLowerCase.

End Form.

(** ** Submitting the draft *)

Module Submit.

Import TimeOfDay Form.

(** The body the form posts to its own API route. *)
Record Payload := {
  pl_email : list N;
  pl_timezone : list N;
  pl_preferred_time : list N;
  pl_units : Units;
  pl_cities : list (list N);
  pl_is_active : bool
}.

(** The route's answer: its status, and what [res.text()] comes to (the
    text, a failure to read it, or a body that never ends). *)
Record ApiResponse := { res_status : Z; res_text : awaited (list N) }.

Definition res_ok (r : ApiResponse) : bool :=
  (200 <=? res_status r) && (res_status r <=? 299).

(** [fetch]: a response, a rejection, or a request that never settles
    (the call sets no timeout). *)
Definition Fetch : Type := Payload → awaited ApiResponse.

(** [React.useMemo]: the factory runs on the first render and whenever a
    dependency differs from the one of the render before; otherwise the
    stored value is handed out again. *)
Definition useMemo {D A} `{EqDecision D}
    (factory : outcome A) (deps : D) (cell : option (D * A))
  : outcome (A * option (D * A)) :=
  match cell with
  | Some (deps0, a) =>
      if decide (deps0 = deps) then mret (a, cell)
      else a' ← factory; mret (a', Some (deps, a'))
  | None => a' ← factory; mret (a', Some (deps, a'))
  end.

Definition timeValid (d : Draft) : bool := test_HHMM (preferred_time d).

(** The factory of the [scheduledAheadOk] memo, called at [clock]. *)
Definition computeScheduledAheadOk (clock : Clock) (d : Draft) : outcome bool :=
  if negb (timeValid d) then mret false
  else isAtLeastMinutesAhead clock (timezone d) (preferred_time d) MIN_AHEAD_MINUTES.

Definition AheadCell : Type := option ((list N * list N * bool) * bool).

(** What a render hands to the event handlers it creates: the state it
    rendered and the value of [scheduledAheadOk] it read. *)
Record View := {
  v_state : FormState;
  v_cell : AheadCell;
  scheduledAheadOk : bool
}.

(** One render at the instant of [clock], as far as the save handler
    depends on it: the preview and the hint under the time field, which
    the handler does not read, are left out. *)
Definition render (clock : Clock) (cell : AheadCell) (st : FormState) : outcome View :=
  let d := draft st in
  '(okAhead, cell') ← useMemo (computeScheduledAheadOk clock d)
                        (timezone d, preferred_time d, timeValid d) cell;
  mret {| v_state := st; v_cell := cell'; scheduledAheadOk := okAhead |}.

Definition guidance (tz : list N) : list N :=
  js "Pick a time at least " ++ String_of_int MIN_AHEAD_MINUTES
     ++ js " minutes from now (in " ++ tz ++ js "). (Tomorrow is allowed.)".

(** U+2014, the dash of the confirmation text. *)
Definition em_dash : list N := [8212%N].

Definition savedTestMessage (scheduled tz : list N) : list N :=
  js "Saved " ++ em_dash ++ js " test scheduled for " ++ scheduled
     ++ js " (" ++ tz ++ js ")".

(** A run of [saveSubscription]: the state it leaves, the requests it
    sent, the exception it let escape, if any, and whether it came to
    its end ([false]: it still awaits a promise that never settles). *)
Record SaveRun := {
  after : FormState;
  requests : list Payload;
  uncaught : option (list N);
  finished : bool
}.

Definition showToast (k : ToastKind) (m : list N) (st : FormState) : FormState :=
  setSavingToast (saving st) (Some {| kind := k; msg := m |}) st.

Definition setSaving (b : bool) (st : FormState) : FormState :=
  setSavingToast b (toast st) st.

(** [saveSubscription(opts)] called at the instant of [clock] from the
    handlers of [view]. *)
Definition saveSubscription (clock : Clock) (fetch : Fetch) (testNow : bool) (view : View)
  : SaveRun :=
  let st0 := setSavingToast true None (v_state view) in
  let d := draft st0 in
  match (if testNow then addMinutesHHMMInTimeZone clock (timezone d) MIN_AHEAD_MINUTES
         else Ret (preferred_time d)) with
  | Throw e => {| after := st0; requests := []; uncaught := Some e; finished := true |}
  | Ret scheduled =>
      if negb testNow && negb (scheduledAheadOk view) then
        {| after := setSaving false (showToast err (guidance (timezone d)) st0);
           requests := []; uncaught := None; finished := true |}
      else
        let payload :=
          {| pl_email := trim (email d); pl_timezone := trim (timezone d);
             pl_preferred_time := trim scheduled; pl_units := units d;
             pl_cities := cities d; pl_is_active := is_active d |} in
        let failed (m : list N) :=
          {| after := setSaving false (showToast err (or_str m (js "Save failed")) st0);
             requests := [payload]; uncaught := None; finished := true |} in
        let waiting :=
          {| after := st0; requests := [payload]; uncaught := None; finished := false |} in
        match fetch payload with
        | Never => waiting
        | Settled (Throw e) => failed e
        | Settled (Ret res) =>
            match res_text res with
            | Never => waiting
            | Settled read =>
                let text := match read with Ret t => t | Throw _ => [] end in
                if negb (res_ok res)
                then failed (or_str text (js "HTTP " ++ String_of_int (res_status res)))
                else if testNow then
                  {| after :=
                       setSaving false
                         (setDraft (setPreferredTime scheduled)
                            (showToast ok (savedTestMessage scheduled (timezone d)) st0));
                     requests := [payload]; uncaught := None; finished := true |}
                else
                  {| after := setSaving false (showToast ok (js "Saved") st0);
                     requests := [payload]; uncaught := None; finished := true |}
            end
        end
  end.

(** A draft for 10:05, last edited (and so last checked) at 10:00. *)
Definition waiting_form : FormState :=
  {| draft := {| email := js "a@b.com"; timezone := js "UTC";
                 preferred_time := js "10:05"; units := metric;
                 cities := [js "London"]; is_active := true |};
     cityInput := []; saving := false; toast := None;
     editingIndex := None; editingValue := [] |}.

Definition waiting_view : View :=
  {| v_state := waiting_form;
     v_cell := Some ((js "UTC", js "10:05", true), true);
     scheduledAheadOk := true |}.

(** The [canSave] memo, for the value of [scheduledAheadOk] the render
    read: what enables the save button. *)
Definition canSave (d : Draft) (okAhead : bool) : bool :=
  Email.isEmailLike (email d)
  && (0 <? length (trim (timezone d)))%nat
  && timeValid d
  && (1 <=? length (cities d))%nat
  && okAhead.

(** The [minAheadHint] memo. Each of its three helper calls reads
    [new Date()] for itself: [clock1], [clock2] and [clock3] are the
    clock at those three instants, in the order of the calls. *)
Inductive When := today | tomorrow.

Record Hint := {
  nowLocal : list N;
  minOk : list N;
  diff : option Z;
  when : option When
}.

Definition minAheadHint (clock1 clock2 clock3 : Clock) (d : Draft) : outcome Hint :=
  nowLocal ← nowHHMMInTimeZone clock1 (timezone d);
  minOk ← addMinutesHHMMInTimeZone clock2 (timezone d) MIN_AHEAD_MINUTES;
  diff ← minutesUntilSend clock3 (timezone d) (preferred_time d);
  let when :=
    match hhmmToMinutes nowLocal, hhmmToMinutes (preferred_time d) with
    | Some nowMin, Some prefMin => Some (if prefMin >=? nowMin then today else tomorrow)
    | _, _ => None
    end in
  mret {| nowLocal := nowLocal; minOk := minOk; diff := diff; when := when |}.

(** The states the form can be in: the first render's state, then any
    sequence of user events and submissions, each submission started from
    a render of the state it finds. *)
Inductive reachable (toLowerCase : list N → list N) : FormState → Prop :=
| reach_init detectedTz now : reachable toLowerCase (initialState detectedTz now)
| reach_event e st :
    reachable toLowerCase st → reachable toLowerCase (handle toLowerCase e st)
| reach_save clock clock' cell fetch testNow st view :
    reachable toLowerCase st →
    render clock cell st = Ret view →
    reachable toLowerCase (after (saveSubscription clock' fetch testNow view)).

End Submit.

(** ** The submission proxy *)

Module Proxy.

#[local] Set Warnings "-register-all".

(** The values [req.json()] can yield, and [undefined] for a property
    that is not there. A finite number is kept as the rational it
    denotes; [JSON.parse] also yields the negative zero (for [-0]) and an
    infinity (for a literal beyond the range of doubles, such as
    [1e999]), never [NaN]. *)
Inductive jsval :=
| JUndefined
| JNull
| JBool (b : bool)
| JNum (q : Q)
| JNegZero
| JInfinity (negative : bool)
| JStr (s : list N)
| JArr (items : list jsval)
| JObj (fields : list (list N * jsval)).

(** [!!v] *)
Definition truthy (v : jsval) : bool :=
  match v with
  | JUndefined | JNull => false
  | JBool b => b
  | JNum q => negb (Qeq_bool q 0)
  | JNegZero => false
  | JInfinity _ => true
  | JStr s => negb (falsy s)
  | JArr _ | JObj _ => true
  end.

(** [Array.isArray(v)] *)
Definition isArray (v : jsval) : bool :=
  match v with JArr _ => true | _ => false end.

Definition isUndefined (v : jsval) : bool :=
  match v with JUndefined => true | _ => false end.

Fixpoint assoc (k : list N) (fields : list (list N * jsval)) : jsval :=
  match fields with
  | [] => JUndefined
  | (k', v) :: rest => if decide (k' = k) then v else assoc k rest
  end.

(** [v.k] for a property name the built-in prototypes do not define:
    only an object's own field answers. *)
Definition get (v : jsval) (k : list N) : jsval :=
  match v with
  | JObj fields => assoc k fields
  | _ => JUndefined
  end.

(** [body ?? {}] *)
Definition orEmptyObject (body : jsval) : jsval :=
  match body with
  | JUndefined | JNull => JObj []
  | _ => body
  end.

(** What [const { k } = body ?? {}] binds. *)
Definition field (body : jsval) (k : string) : jsval := get (orEmptyObject body) (js k).

(** The value a reader of [JSON.stringify(v)] gets. An infinity is
    written as [null] and the negative zero as [0]; an [undefined] is
    written as [null] inside an array and left out, with its key, inside
    an object; everything else is written as it is. *)
Fixpoint written (v : jsval) : jsval :=
  match v with
  | JNegZero => JNum 0
  | JInfinity _ => JNull
  | JArr items =>
      JArr (List.map (fun item => match item with
                                  | JUndefined => JNull
                                  | _ => written item
                                  end) items)
  | JObj fields =>
      JObj ((fix properties (l : list (list N * jsval)) : list (list N * jsval) :=
               match l with
               | [] => []
               | (k, JUndefined) :: rest => properties rest
               | (k, x) :: rest => (k, written x) :: properties rest
               end) fields)
  | _ => v
  end.

(** The properties of a written object, by themselves. *)
Fixpoint written_fields (l : list (list N * jsval)) : list (list N * jsval) :=
  match l with
  | [] => []
  | (k, JUndefined) :: rest => written_fields rest
  | (k, x) :: rest => (k, written x) :: written_fields rest
  end.

(** The values that [JSON.stringify] writes as they are: no infinity,
    no negative zero and no [undefined] inside. *)
Fixpoint plain (v : jsval) : bool :=
  match v with
  | JNegZero | JInfinity _ => false
  | JArr items => forallb (fun item => negb (isUndefined item) && plain item) items
  | JObj fields => forallb (fun kv => negb (isUndefined kv.2) && plain kv.2) fields
  | _ => true
  end.

(** The object that [JSON.stringify] writes for an object literal. *)
Definition stringified (fields : list (list N * jsval)) : jsval := written (JObj fields).

(** [process.env] as the handler reads it. *)
Record Env := {
  SUPABASE_URL : option (list N);
  ADMIN_SECRET : option (list N);
  SUPABASE_SERVICE_ROLE_KEY : option (list N)
}.

(** [!x] for an environment variable: unset, or set to the empty string. *)
Definition unset (x : option (list N)) : bool :=
  match x with Some (_ :: _) => false | _ => true end.

(** A response body: [JsonBody v] is what [NextResponse.json(v)] writes
    for [v], [TextBody s] the string [s]. *)
Inductive ResponseBody :=
| JsonBody (v : jsval)
| TextBody (s : list N).

Record Response := { status : Z; body : ResponseBody }.

(** [NextResponse.json({ error: message }, { status })] *)
Definition error_response (st : Z) (message : list N) : Response :=
  {| status := st; body := JsonBody (JObj [(js "error", JStr message)]) |}.

Record UpstreamRequest := {
  url : list N;
  method : list N;
  headers : list (list N * list N);
  json_body : jsval
}.

Record UpstreamResponse := { up_status : Z; up_text : list N }.

(** [upstream.ok] *)
Definition up_ok (u : UpstreamResponse) : bool :=
  (200 <=? up_status u) && (up_status u <=? 299).

(** The check on the request body: [true] when the handler answers 400. *)
Definition missing_fields (body : jsval) : bool :=
  negb (truthy (field body "email"))
  || negb (truthy (field body "timezone"))
  || negb (truthy (field body "preferred_time"))
  || negb (truthy (field body "units"))
  || negb (isArray (field body "cities")).

(** The request the handler sends upstream for a request body. *)
Definition upstream_request (supabase_url admin_secret service_role : list N) (body : jsval)
  : UpstreamRequest :=
  {| url := supabase_url ++ js "/functions/v1/upsert-subscriber";
     method := js "POST";
     headers :=
       [ (js "content-type", js "application/json");
         (js "accept", js "application/json");
         (js "authorization", js "Bearer " ++ service_role);
         (js "apikey", service_role);
         (js "x-admin-secret", trim admin_secret) ];
     json_body :=
       stringified
         [ (js "email", field body "email");
           (js "timezone", field body "timezone");
           (js "preferred_time", field body "preferred_time");
           (js "units", field body "units");
           (js "cities", field body "cities");
           (js "is_active", field body "is_active") ] |}.

(** The same, with the three secrets read from the environment (set, by
    the time the handler gets here). *)
Definition request_for (env : Env) (body : jsval) : UpstreamRequest :=
  upstream_request (default [] (SUPABASE_URL env)) (default [] (ADMIN_SECRET env))
    (default [] (SUPABASE_SERVICE_ROLE_KEY env)) body.

(** The statuses the [Response] constructor takes together with a body:
    it throws a [RangeError] outside 200 to 599 and a [TypeError] for a
    null-body status. *)
Definition null_body_status (st : Z) : bool := bool_decide (st ∈ [101; 103; 204; 205; 304]).
Definition Response_accepts (st : Z) : bool :=
  (200 <=? st) && (st <=? 599) && negb (null_body_status st).

Section WithRuntime.

(** [JSON.parse]: [None] when it throws. *)
Variable JSON_parse : list N → option jsval.

(** The message of the error the [Response] constructor throws for a
    status. *)
Variable Response_error : Z → list N.

(** [new NextResponse(text, { status })]; the body is a string, so it is
    never null. *)
Definition text_response (st : Z) (text : list N) : outcome Response :=
  if Response_accepts st then Ret {| status := st; body := TextBody text |}
  else Throw (Response_error st).

(** How the handler answers once the upstream response is in. *)
Definition relay (up : UpstreamResponse) : outcome Response :=
  if negb (up_ok up) then text_response (up_status up) (up_text up)
  else
    match JSON_parse (up_text up) with
    | Some v => Ret {| status := 200; body := JsonBody v |}
    | None => text_response 200 (up_text up)
    end.

(** [catch (e)]: [e?.message || "Server error"] *)
Definition server_error (e : list N) : Response :=
  error_response 500 (or_str e (js "Server error")).

(** The handler: the requests it sent upstream, and its response.
    [req_json] is what [await req.json()] does, [fetch] the upstream
    (an exception stands for a failed request or an unreadable body). *)
Definition POST (env : Env) (req_json : outcome jsval)
    (fetch : UpstreamRequest → outcome UpstreamResponse)
  : list UpstreamRequest * Response :=
  if unset (SUPABASE_URL env) then ([], error_response 500 (js "Missing SUPABASE_URL env var"))
  else if unset (ADMIN_SECRET env) then ([], error_response 500 (js "Missing ADMIN_SECRET env var"))
  else if unset (SUPABASE_SERVICE_ROLE_KEY env)
  then ([], error_response 500 (js "Missing SUPABASE_SERVICE_ROLE_KEY env var"))
  else
    match req_json with
    | Throw e => ([], server_error e)
    | Ret body =>
        if missing_fields body then ([], error_response 400 (js "Missing required fields"))
        else
          let rq := request_for env body in
          match up ← fetch rq; relay up with
          | Throw e => ([rq], server_error e)
          | Ret response => ([rq], response)
          end
    end.

End WithRuntime.

(** Two values with the same own properties: equal as JSON objects,
    whatever the order of their keys. *)
Definition same_object (a b : jsval) : Prop := ∀ k, get a k = get b k.

(** The six properties the handler reads. *)
Definition forwarded_keys : list (list N) :=
  [js "email"; js "timezone"; js "preferred_time"; js "units"; js "cities"; js "is_active"].

(** The first configuration variable the handler finds unset, in the
    order it checks them. *)
Definition first_unset (env : Env) : option string :=
  if unset (SUPABASE_URL env) then Some "SUPABASE_URL"%string
  else if unset (ADMIN_SECRET env) then Some "ADMIN_SECRET"%string
  else if unset (SUPABASE_SERVICE_ROLE_KEY env) then Some "SUPABASE_SERVICE_ROLE_KEY"%string
  else None.

(** A configured deployment, one without its URL, and some request
    bodies. *)
Definition env_ok : Env :=
  {| SUPABASE_URL := Some (js "https://project.supabase.co");
     ADMIN_SECRET := Some (js " s3cret ");
     SUPABASE_SERVICE_ROLE_KEY := Some (js "service-role-key") |}.

Definition env_no_url : Env :=
  {| SUPABASE_URL := None;
     ADMIN_SECRET := Some (js " s3cret ");
     SUPABASE_SERVICE_ROLE_KEY := Some (js "service-role-key") |}.

Definition base_fields : list (list N * jsval) :=
  [ (js "email", JStr (js "a@b.com"));
    (js "timezone", JStr (js "UTC"));
    (js "preferred_time", JStr (js "10:05"));
    (js "units", JStr (js "metric")) ].

Definition body_ok : jsval :=
  JObj (base_fields ++ [(js "cities", JArr [JStr (js "London")]); (js "is_active", JBool true)]).

Definition body_no_cities : jsval := JObj base_fields.


(** [is_active] given as [1e999], which [req.json()] reads as
    [Infinity]. *)
Definition body_with_infinity : jsval :=
  JObj (base_fields ++ [(js "cities", JArr [JStr (js "London")]);
                        (js "is_active", JInfinity false)]).

Definition body_with_note : jsval :=
  JObj (base_fields ++ [(js "cities", JArr [JStr (js "London")]); (js "is_active", JBool true);
                        (js "note", JStr (js "hi"))]).

End Proxy.

(** ** From the form to the proxy *)

Module EndToEnd.

Import Form Submit Proxy.

(** What [req.json()] reads from the body the form posts,
    [JSON.stringify(payload)]. *)
Definition payload_json (p : Payload) : jsval :=
  JObj [ (js "email", JStr (pl_email p));
         (js "timezone", JStr (pl_timezone p));
         (js "preferred_time", JStr (pl_preferred_time p));
         (js "units", JStr (match pl_units p with
                            | metric => js "metric"
                            | imperial => js "imperial"
                            end));
         (js "cities", JArr (JStr <$> pl_cities p));
         (js "is_active", JBool (pl_is_active p)) ].

(** The body a save sends for a draft and a scheduled time. *)
Definition payload_of (d : Draft) (scheduled : list N) : Payload :=
  {| pl_email := trim (email d); pl_timezone := trim (timezone d);
     pl_preferred_time := trim scheduled; pl_units := units d;
     pl_cities := cities d; pl_is_active := is_active d |}.

End EndToEnd.

(** * Properties *)

(** ** Trimming *)

Section DropWhile.

Context {A : Type} (p : A → bool).

Lemma dropWhile_suffix (l : list A) : ∃ w, l = w ++ dropWhile p l.
Proof.
  induction l as [|x t [w IH]]; simpl.
  - by exists [].
  - destruct (p x).
    + exists (x :: w). by rewrite <- app_comm_cons, <- IH.
    + by exists [].
Qed.

Lemma dropWhile_head (l : list A) x t : dropWhile p l = x :: t → p x = false.
Proof.
  induction l as [|y l IH]; simpl; [done|].
  destruct (p y) eqn:Hy; [done|]. by intros [= -> ->].
Qed.

Lemma dropWhile_keeps (l : list A) :
  (∀ x t, l = x :: t → p x = false) → dropWhile p l = l.
Proof.
  destruct l as [|x t]; simpl; [done|].
  intros H. by rewrite (H x t eq_refl).
Qed.

Lemma dropWhile_idemp (l : list A) : dropWhile p (dropWhile p l) = dropWhile p l.
Proof. apply dropWhile_keeps. intros x t. apply dropWhile_head. Qed.

End DropWhile.

Lemma trimEnd_prefix (s : list N) : ∃ w, s = trimEnd s ++ w.
Proof.
  unfold trimEnd.
  destruct (dropWhile_suffix isWhiteSpace (rev s)) as [w Hw].
  exists (rev w). rewrite <- rev_app_distr, <- Hw. by rewrite rev_involutive.
Qed.

Lemma trimEnd_idemp (s : list N) : trimEnd (trimEnd s) = trimEnd s.
Proof. unfold trimEnd. by rewrite rev_involutive, dropWhile_idemp. Qed.

(** A trimmed string starts with no white space. *)
Lemma trim_head (s : list N) c t : trim s = c :: t → isWhiteSpace c = false.
Proof.
  unfold trim. intros Hs.
  destruct (trimEnd_prefix (trimStart s)) as [w Hw].
  rewrite Hs in Hw. simpl in Hw.
  by apply (dropWhile_head isWhiteSpace s c (t ++ w)).
Qed.

(** [trim] is idempotent. *)
Lemma trim_idemp (s : list N) : trim (trim s) = trim s.
Proof.
  unfold trim at 1. unfold trimStart.
  rewrite dropWhile_keeps.
  - unfold trim. apply trimEnd_idemp.
  - intros c t. apply trim_head.
Qed.

Lemma falsy_nil (s : list N) : falsy s = true ↔ s = [].
Proof. by destruct s. Qed.

Lemma falsy_false (s : list N) : falsy s = false ↔ s ≠ [].
Proof. by destruct s. Qed.

(** ** City sanitation *)

Section CitiesProperties.

Import Cities Form.

Variable toLowerCase : list N → list N.

#[local] Abbreviation step := (clamp_step toLowerCase).
#[local] Abbreviation nonblank := (fun v : list N => negb (falsy v)).

(** The loop against the stage-by-stage description: whenever the [seen]
    set holds exactly the lowercase forms of the entries met so far, the
    loop appends to [out] what [drop_seen] keeps. *)
Lemma clamp_loop_spec (arr : list (option (list N))) :
  ∀ (st : clamp_state) (earlier : list (list N)),
    (∀ k, k ∈ st.1 ↔ Exists (fun u => toLowerCase u = k) earlier) →
    (foldl step st arr).2
    = st.2 ++ drop_seen toLowerCase earlier
                (List.filter nonblank (List.map trim (default [] <$> arr))).
Proof.
  induction arr as [|raw arr IH]; intros [seen out] earlier Hseen; simpl.
  - by rewrite app_nil_r.
  - unfold clamp_step at 2. simpl.
    destruct (falsy (trim (default [] raw))) eqn:Hblank; simpl.
    + by apply IH.
    + destruct (decide (toLowerCase (trim (default [] raw)) ∈ seen)) as [Hin|Hnew].
      * rewrite decide_True by (by apply Hseen).
        apply IH. simpl. intros k. rewrite Exists_app, Exists_cons, Exists_nil.
        split; [intros ?%Hseen; tauto|].
        intros [?|[<-|[]]]; [by apply Hseen | done].
      * rewrite decide_False by (by rewrite <- (Hseen _)).
        rewrite (IH _ (earlier ++ [trim (default [] raw)])); simpl.
        -- by rewrite <- app_assoc.
        -- intros k. rewrite Exists_app, Exists_cons, Exists_nil.
           rewrite elem_of_union, elem_of_singleton, (Hseen k).
           split; [intros [->|?]; [right; by left | by left]|].
           intros [?|[<-|[]]]; [by right | by left].
Qed.

(** On an array of strings the loop computes what the description says. *)
Lemma clampCities_refines (arr : list (list N)) :
  clampCities toLowerCase (Some <$> arr) = clampCities_spec toLowerCase arr.
Proof.
  unfold clampCities, clampCities_spec, slice0.
  rewrite (clamp_loop_spec _ _ []); simpl.
  - f_equal. f_equal. f_equal. f_equal.
    rewrite <- list_fmap_compose. by rewrite list_fmap_id.
  - intros k. rewrite Exists_nil. set_solver.
Qed.

Lemma clamp_step_inv st raw : clamp_inv toLowerCase st → clamp_inv toLowerCase (step st raw).
Proof.
  destruct st as [seen out]. intros (Hnd & Hseen & Htrim).
  unfold clamp_step; simpl in *.
  destruct (falsy (trim (default [] raw))) eqn:Hblank; [done|].
  destruct (decide (toLowerCase (trim (default [] raw)) ∈ seen)) as [Hin|Hnew]; [done|].
  repeat split; simpl.
  - rewrite fmap_app. apply NoDup_app. repeat split; [done| |apply NoDup_singleton].
    intros k (v & Hk & Hv)%list_elem_of_fmap_1 Hk'%list_elem_of_singleton.
    apply Hnew. rewrite <- Hk', Hk. by apply Hseen.
  - intros v [Hv| ->%list_elem_of_singleton]%elem_of_app; set_solver.
  - intros v [Hv| ->%list_elem_of_singleton]%elem_of_app; [by apply Htrim|].
    rewrite trim_idemp. by apply falsy_false.
Qed.

Lemma clamp_loop_inv arr st : clamp_inv toLowerCase st → clamp_inv toLowerCase (foldl step st arr).
Proof. revert st. induction arr; simpl; auto using clamp_step_inv. Qed.

(** The invariant in terms of [NoDup]. *)
Lemma cities_ok_NoDup (l : list (list N)) :
  cities_ok toLowerCase l
  ↔ (length l ≤ 10)%nat ∧ (∀ c, c ∈ l → trim c ≠ []) ∧ NoDup (toLowerCase <$> l).
Proof.
  unfold cities_ok, ci_equal. split; intros (Hlen & Htrim & Hdup); repeat split; try done.
  - apply NoDup_alt. intros i j k Hi Hj.
    apply list_lookup_fmap_Some in Hi as (a & -> & Ha).
    apply list_lookup_fmap_Some in Hj as (b & Hab & Hb).
    destruct (decide (i = j)) as [|Hne]; [done|].
    by destruct (Hdup i j a b Hne Ha Hb).
  - intros i j a b Hne Ha Hb Hab. apply Hne.
    apply (NoDup_lookup _ i j (toLowerCase a) Hdup).
    + by rewrite list_lookup_fmap, Ha.
    + by rewrite list_lookup_fmap, Hb, Hab.
Qed.

(** Dropping entries keeps the invariant. *)
Lemma cities_ok_sublist (l1 l2 : list (list N)) :
  l1 `sublist_of` l2 → cities_ok toLowerCase l2 → cities_ok toLowerCase l1.
Proof.
  rewrite !cities_ok_NoDup. intros Hsub (Hlen & Htrim & Hdup). repeat split.
  - apply sublist_length in Hsub. lia.
  - intros c Hc. apply Htrim. by eapply elem_of_sublist.
  - eapply sublist_NoDup; [done|]. by apply fmap_sublist.
Qed.

(** Whatever it is given, [clampCities] returns a list that satisfies the
    invariant. *)
Lemma clampCities_ok (arr : list (option (list N))) :
  cities_ok toLowerCase (clampCities toLowerCase arr).
Proof.
  apply cities_ok_NoDup. unfold clampCities, slice0.
  destruct (clamp_loop_inv arr (∅, [])) as (Hnd & _ & Htrim).
  { repeat split; simpl; [apply NoDup_nil_2 | set_solver | set_solver]. }
  repeat split.
  - rewrite length_take. lia.
  - intros c Hc. apply Htrim. eapply elem_of_sublist; [done|apply sublist_take].
  - eapply sublist_NoDup; [done|]. apply fmap_sublist, sublist_take.
Qed.

(** [filter((_, i) => i !== idx)] only drops entries. *)
Lemma remove_at_sublist (idx : nat) (l : list (list N)) : remove_at idx l `sublist_of` l.
Proof.
  unfold remove_at. revert idx.
  induction l as [|c l IH]; intros idx; simpl; [done|].
  assert (Hshift : ∀ l' : list (list N),
    imap ((fun i c => if decide (i = idx) then None else Some c) ∘ S) l'
    = imap (fun i c => if decide (i = pred idx) then None else Some c) l'
      ∨ idx = 0%nat ∧
        imap ((fun i c => if decide (i = idx) then None else Some c) ∘ S) l' = Some <$> l').
  { intros l'. destruct idx as [|n].
    - right. split; [done|]. rewrite <- (imap_const Some). by apply imap_ext.
    - left. apply imap_ext. intros i x _. simpl. repeat case_decide; done || lia. }
  destruct (decide (0%nat = idx)) as [<-|Hne]; simpl.
  - destruct (Hshift l) as [->|[_ ->]].
    + apply sublist_cons, IH.
    + apply sublist_cons. clear. induction l; simpl; [done|]. by apply sublist_skip.
  - destruct (Hshift l) as [->|[-> _]]; [|done].
    apply sublist_skip, IH.
Qed.

End CitiesProperties.

Section CitiesClaims.

Import Cities TimeOfDay Form Submit.

(** [clampCities] asks [toLowerCase] only about the trimmed entries. *)
Lemma clampCities_ext (f g : list N → list N) (arr : list (option (list N))) :
  (∀ raw, raw ∈ arr → f (trim (default [] raw)) = g (trim (default [] raw))) →
  clampCities f arr = clampCities g arr.
Proof.
  intros Hfg. unfold clampCities. do 2 f_equal.
  generalize (∅ : gset (list N), [] : list (list N)).
  induction arr as [|raw arr IH]; intros st; simpl; [done|].
  rewrite IH by (intros; apply Hfg; by right).
  f_equal. unfold clamp_step. by rewrite (Hfg raw) by left.
Qed.

(** C3. [clampCities] maps a list of strings to what the description
    says (every entry trimmed, the empty ones dropped, then every entry
    whose lowercase form an earlier entry already had, then the first
    ten kept), and the sample list of six entries to London and Paris.
    [toLowerCase] is the runtime's; on ASCII text it lowers A to Z. *)
Theorem clampCities_sanitizes (toLowerCase : list N → list N)
    (Hascii : ∀ s, isAscii s = true → toLowerCase s = ascii_lower s) :
  (∀ arr : list (list N),
     clampCities toLowerCase (Some <$> arr) = clampCities_spec toLowerCase arr)
  ∧ clampCities toLowerCase
      (Some <$> [js "London"; js " london "; js ""; js "Paris"; js "PARIS"; js "London"])
    = [js "London"; js "Paris"].
Proof.
  split; [apply clampCities_refines|].
  rewrite (clampCities_ext toLowerCase ascii_lower); [by vm_compute|].
  apply Forall_forall.
  repeat (apply Forall_cons; split; [by apply Hascii|]). apply Forall_nil_2.
Qed.

Lemma clampCities_sanitizes_witness :
  (∀ arr : list (list N),
     clampCities ascii_lower (Some <$> arr) = clampCities_spec ascii_lower arr)
  ∧ clampCities ascii_lower
      (Some <$> [js "London"; js " london "; js ""; js "Paris"; js "PARIS"; js "London"])
    = [js "London"; js "Paris"].
Proof. exact (clampCities_sanitizes ascii_lower (fun s _ => eq_refl)). Defined.

(** A render shows the state it was given. *)
Lemma render_state clock cell st view : render clock cell st = Ret view → v_state view = st.
Proof.
  unfold render, useMemo. intros H.
  destruct cell as [[deps0 a]|]; simpl in H.
  - destruct (decide _); simpl in H.
    + by injection H as <-.
    + destruct (computeScheduledAheadOk _ _); simpl in H; [by injection H as <-|done].
  - destruct (computeScheduledAheadOk _ _); simpl in H; [by injection H as <-|done].
Qed.

(** A submission leaves the city list alone. *)
Lemma saveSubscription_cities clock fetch testNow view :
  cities (draft (after (saveSubscription clock fetch testNow view)))
  = cities (draft (v_state view)).
Proof.
  unfold saveSubscription.
  destruct testNow; simpl.
  - destruct (addMinutesHHMMInTimeZone _ _ _); simpl; [|done].
    destruct (fetch _) as [[res|]|]; simpl; [|done..].
    destruct (res_text res); [|done]. by destruct (res_ok res).
  - destruct (scheduledAheadOk view); simpl; [|done].
    destruct (fetch _) as [[res|]|]; simpl; [|done..].
    destruct (res_text res); [|done]. by destruct (res_ok res).
Qed.

Lemma initial_cities_ok toLowerCase : cities_ok toLowerCase [js "London"].
Proof.
  repeat split.
  - simpl. lia.
  - intros c ->%list_elem_of_singleton. by vm_compute.
  - intros [|i] [|j] a b Hne Ha Hb; done.
Qed.

(** Every handler keeps the invariant of the city list. *)
Lemma handle_cities_ok toLowerCase e st :
  cities_ok toLowerCase (cities (draft st)) →
  cities_ok toLowerCase (cities (draft (handle toLowerCase e st))).
Proof.
  intros Hok. destruct e; simpl; try done.
  - unfold addCity. destruct (falsy _); [done|]. apply clampCities_ok.
  - unfold removeCity. destruct (decide _); simpl;
      (eapply cities_ok_sublist; [apply remove_at_sublist|done]).
  - unfold commitEditCity. destruct (editingIndex st); [|done].
    destruct (falsy _); [done|]. apply clampCities_ok.
  - destruct stored; simpl; [apply clampCities_ok|done].
Qed.

(** C4. In every state the form can reach (from the initial default,
    through addCity, removeCity, commitEditCity, the restore from storage,
    the other edits and submissions) the draft's city list has at most ten
    entries, none of them blank after trimming, and no two equal up to
    case. *)
Theorem cities_invariant (toLowerCase : list N → list N) (st : FormState) :
  reachable toLowerCase st → cities_ok toLowerCase (cities (draft st)).
Proof.
  induction 1 as [tz now | e st _ IH | clock clock' cell fetch testNow st view _ IH Hview].
  - apply initial_cities_ok.
  - by apply handle_cities_ok.
  - rewrite saveSubscription_cities. by rewrite (render_state _ _ _ _ Hview).
Qed.

Lemma cities_invariant_witness :
  cities_ok ascii_lower
    (cities (draft (handle ascii_lower (RemoveCity 0)
                     (handle ascii_lower AddCity
                        (handle ascii_lower (TypeCity (js " Paris "))
                           (initialState (js "UTC") (js "10:00"))))))).
Proof.
  apply (cities_invariant ascii_lower).
  do 3 apply reach_event. apply reach_init.
Defined.

End CitiesClaims.

(** ** Time-of-day arithmetic *)

Section TimeProperties.

Import TimeOfDay.

(** A parsed time is a time of the day. *)
Lemma parseHHMM_range (s : list N) (p : HHMM) :
  parseHHMM s = Some p → 0 ≤ hh p ≤ 23 ∧ 0 ≤ mm p ≤ 59.
Proof.
  unfold parseHHMM. destruct (exec_HHMM (trim s)) as [[m1 m2]|]; [|done].
  destruct (_ || _) eqn:Hrange; [done|]. intros [= <-]. simpl.
  rewrite !orb_false_iff, !Z.ltb_ge, !Z.gtb_ltb, !Z.ltb_ge in Hrange. lia.
Qed.

Lemma minutesOfDay_range (p : HHMM) :
  0 ≤ hh p ≤ 23 → 0 ≤ mm p ≤ 59 → 0 ≤ minutesOfDay (hh p) (mm p) ≤ 1439.
Proof. unfold minutesOfDay. lia. Qed.

(** [minutesUntilSend] once the clock has been read. *)
Lemma minutesUntilSend_unfold clock tz target now :
  nowHHMMInTimeZone clock tz = Ret now →
  minutesUntilSend clock tz target =
    match parseHHMM now, parseHHMM target with
    | Some nowP, Some prefP =>
        let nowMin := minutesOfDay (hh nowP) (mm nowP) in
        let prefMin := minutesOfDay (hh prefP) (mm prefP) in
        Ret (Some (if prefMin >=? nowMin then prefMin - nowMin
                   else (1440 - nowMin) + prefMin))
    | _, _ => Ret None
    end.
Proof.
  intros Hnow. unfold minutesUntilSend. rewrite Hnow. simpl.
  destruct (parseHHMM now), (parseHHMM target); try done.
  by destruct (_ >=? _).
Qed.

(** C1, refuted as stated: for a zone that [Intl.DateTimeFormat] does
    not know, and a target that does not parse, [minutesUntilSend] does
    not return [null]: reading the clock throws, and so does it. *)
Lemma unknown_zone_throws :
  parseHHMM (js "7:5") = None
  ∧ minutesUntilSend (clock_of [js "UTC"] "10" "00") (js "Mars/Olympus") (js "7:5")
    = Throw (js "Invalid time zone specified: Mars/Olympus")
  ∧ minutesUntilSend (clock_of [js "UTC"] "10" "00") (js "Mars/Olympus") (js "7:5")
    ≠ Ret None.
Proof. split; [by vm_compute|]. split; [by vm_compute|]. by vm_compute. Qed.

(** C1, as the code has it. For a zone whose clock can be read,
    [minutesUntilSend] returns an integer from 0 to 1439 when both that
    reading and the target parse as HH:MM, and [null] when either does
    not; for a zone whose clock cannot be read it throws the error of the
    reading, whatever the target. *)
Theorem minutesUntilSend_range (clock : Clock) (tz target : list N) :
  (∀ now, nowHHMMInTimeZone clock tz = Ret now →
     (is_Some (parseHHMM now) → is_Some (parseHHMM target) →
      ∃ n, minutesUntilSend clock tz target = Ret (Some n) ∧ 0 ≤ n ≤ 1439)
     ∧ (parseHHMM now = None ∨ parseHHMM target = None →
        minutesUntilSend clock tz target = Ret None))
  ∧ (∀ e, nowHHMMInTimeZone clock tz = Throw e →
       minutesUntilSend clock tz target = Throw e).
Proof.
  split.
  - intros now Hnow. rewrite (minutesUntilSend_unfold _ _ _ _ Hnow). split.
    + intros [p Hp] [q Hq]. rewrite Hp, Hq. simpl. eexists. split; [done|].
      pose proof (parseHHMM_range _ _ Hp) as [Hh Hm].
      pose proof (parseHHMM_range _ _ Hq) as [Hh' Hm'].
      pose proof (minutesOfDay_range p Hh Hm).
      pose proof (minutesOfDay_range q Hh' Hm').
      destruct (Z.geb_spec (minutesOfDay (hh q) (mm q)) (minutesOfDay (hh p) (mm p))); lia.
    + intros [-> | ->]; [done|]. by destruct (parseHHMM now).
  - intros e He. unfold minutesUntilSend. by rewrite He.
Qed.

Lemma minutesUntilSend_range_witness :
  (∃ n, minutesUntilSend (clock_at "23" "59") (js "UTC") (js "00:01") = Ret (Some n)
        ∧ 0 ≤ n ≤ 1439)
  ∧ minutesUntilSend (clock_at "24" "00") (js "UTC") (js "00:01") = Ret None
  ∧ minutesUntilSend (clock_at "23" "59") (js "UTC") (js "7:5") = Ret None
  ∧ minutesUntilSend (clock_of [js "UTC"] "23" "59") (js "Mars/Olympus") (js "00:01")
    = Throw (js "Invalid time zone specified: Mars/Olympus").
Proof.
  split; [|split; [|split]].
  - apply (proj1 (proj1 (minutesUntilSend_range (clock_at "23" "59") (js "UTC") (js "00:01"))
                    (js "23:59") eq_refl)); by eexists.
  - apply (proj2 (proj1 (minutesUntilSend_range (clock_at "24" "00") (js "UTC") (js "00:01"))
                    (js "24:00") eq_refl)).
    left. reflexivity.
  - apply (proj2 (proj1 (minutesUntilSend_range (clock_at "23" "59") (js "UTC") (js "7:5"))
                    (js "23:59") eq_refl)).
    right. reflexivity.
  - apply (proj2 (minutesUntilSend_range (clock_of [js "UTC"] "23" "59") (js "Mars/Olympus")
                    (js "00:01"))).
    reflexivity.
Defined.

Lemma reads_back_all : forallb reads_back (Z.of_nat <$> seq 0 1440) = true.
Proof. by vm_compute. Qed.

(** Every minute of the day is written as a text that parses back to
    it: checked on each of the 1440 minutes. *)
Lemma formatted_parses (total : Z) :
  0 ≤ total < 1440 →
  ∃ p, parseHHMM (formatted total) = Some p
       ∧ minutesOfDay (hh p) (mm p) = total.
Proof.
  intros Hrange.
  assert (reads_back total = true) as Hrb.
  { pose proof reads_back_all as Hall. rewrite forallb_forall in Hall.
    apply Hall. apply list_elem_of_In, list_elem_of_fmap.
    exists (Z.to_nat total). split; [lia|].
    apply list_elem_of_In, in_seq. lia. }
  unfold reads_back in Hrb.
  destruct (parseHHMM (formatted total)) as [p|]; [|done].
  apply andb_true_iff in Hrb as [Hh%Z.eqb_eq Hm%Z.eqb_eq].
  exists p. split; [done|]. unfold minutesOfDay. rewrite Hh, Hm.
  rewrite Z.rem_mod_nonneg by lia. pose proof (Z.div_mod total 60). lia.
Qed.

(** Integers up to 2^53 in magnitude are doubles as they are. *)
Lemma nearest_double_exact (z : Z) : Z.abs z ≤ 2 ^ 53 → nearest_double z = z.
Proof. intros Hz. unfold nearest_double. by destruct (Z.leb_spec (Z.abs z) (2 ^ 53)); [|lia]. Qed.

(** So the sum of a minute of the day and a number of minutes that
    leaves room for it is exact. *)
Lemma nearest_double_minutes (n delta : Z) :
  0 ≤ n ≤ 1439 → Z.abs delta ≤ 2 ^ 53 - 1440 → nearest_double (n + delta) = n + delta.
Proof. intros Hn Hdelta. apply nearest_double_exact. lia. Qed.

(** [addMinutesHHMMInTimeZone] once the clock has been read. *)
Lemma addMinutes_unfold clock tz now p delta :
  nowHHMMInTimeZone clock tz = Ret now →
  parseHHMM now = Some p →
  addMinutesHHMMInTimeZone clock tz delta
  = Ret (formatted (Z.rem (Z.rem (nearest_double (minutesOfDay (hh p) (mm p) + delta)) 1440
                           + 1440) 1440)).
Proof.
  intros Hnow Hp. unfold addMinutesHHMMInTimeZone. rewrite Hnow.
  unfold mbind, outcome_bind. by rewrite Hp.
Qed.

(** C2. With one reading of the clock for both calls: when the current
    time of the zone parses, the time two minutes ahead of it passes the
    two-minute lookahead, also across midnight, where 23:59 gives 00:01. *)
Theorem test_time_passes_lookahead (clock : Clock) (tz now : list N) :
  nowHHMMInTimeZone clock tz = Ret now →
  is_Some (parseHHMM now) →
  (t ← addMinutesHHMMInTimeZone clock tz 2; isAtLeastMinutesAhead clock tz t 2) = Ret true
  ∧ (now = js "23:59" → addMinutesHHMMInTimeZone clock tz 2 = Ret (js "00:01")).
Proof.
  intros Hnow [p Hp]. rewrite (addMinutes_unfold _ _ _ _ _ Hnow Hp). split.
  - pose proof (parseHHMM_range _ _ Hp) as [Hh Hm].
    pose proof (minutesOfDay_range p Hh Hm) as Hn.
    rewrite nearest_double_minutes by (done || by vm_compute).
    set (n := minutesOfDay (hh p) (mm p)) in *.
    set (total := Z.rem (Z.rem (n + 2) 1440 + 1440) 1440).
    assert (Htotal : 0 ≤ total < 1440
                     ∧ (total = n + 2 ∨ total = n + 2 - 1440)).
    { subst total. Z.quot_rem_to_equations. lia. }
    destruct Htotal as [Hrange Hcases].
    destruct (formatted_parses total Hrange) as (q & Hq & Hqmin).
    unfold mbind at 1, outcome_bind at 1. unfold isAtLeastMinutesAhead.
    rewrite (minutesUntilSend_unfold _ _ _ _ Hnow), Hp, Hq.
    unfold mbind, outcome_bind, mret, outcome_ret. cbv zeta.
    rewrite Hqmin. fold n. f_equal.
    destruct (Z.geb_spec total n); apply Z.geb_le; lia.
  - intros ->. vm_compute in Hp. injection Hp as <-. by vm_compute.
Qed.

Lemma test_time_passes_lookahead_witness :
  (t ← addMinutesHHMMInTimeZone (clock_at "23" "59") (js "Asia/Tokyo") 2;
   isAtLeastMinutesAhead (clock_at "23" "59") (js "Asia/Tokyo") t 2) = Ret true
  ∧ addMinutesHHMMInTimeZone (clock_at "23" "59") (js "Asia/Tokyo") 2 = Ret (js "00:01").
Proof.
  destruct (test_time_passes_lookahead (clock_at "23" "59") (js "Asia/Tokyo") (js "23:59")
              eq_refl (ex_intro _ _ eq_refl)) as [Hahead Hwrap].
  split; [exact Hahead | exact (Hwrap eq_refl)].
Defined.

End TimeProperties.

(** ** Submitting the draft *)

Section SubmitProperties.

Import Cities TimeOfDay Form Submit.

(** When the draft's time is the time the clock shows, the lookahead
    check computed at that clock fails. *)
Lemma lookahead_fails_at_now (clock : Clock) (d : Draft) :
  nowHHMMInTimeZone clock (timezone d) = Ret (preferred_time d) →
  computeScheduledAheadOk clock d = Ret false.
Proof.
  intros Hnow. unfold computeScheduledAheadOk.
  destruct (timeValid d); [|done]. simpl.
  unfold isAtLeastMinutesAhead.
  rewrite (minutesUntilSend_unfold _ _ _ _ Hnow).
  destruct (parseHHMM (preferred_time d)) as [p|]; [|done].
  unfold mbind, outcome_bind, mret, outcome_ret. cbv zeta.
  destruct (Z.geb_spec (minutesOfDay (hh p) (mm p)) (minutesOfDay (hh p) (mm p))); [|lia].
  by rewrite Z.sub_diag.
Qed.

(** The guard of [saveSubscription]: with [scheduledAheadOk] false, a
    normal save shows the guidance, sends nothing and keeps the draft. *)
Lemma guard_blocks (clock : Clock) (fetch : Fetch) (view : View) :
  scheduledAheadOk view = false →
  let run := saveSubscription clock fetch false view in
  requests run = []
  ∧ toast (after run)
    = Some {| kind := err; msg := guidance (timezone (draft (v_state view))) |}
  ∧ draft (after run) = draft (v_state view)
  ∧ saving (after run) = false
  ∧ uncaught run = None.
Proof. intros Hok. unfold saveSubscription. simpl. by rewrite Hok. Qed.

(** So a save made from a render that computed the check at the clock of
    the save is refused when the draft's time is the current time. *)
Lemma fresh_guard_blocks (clock : Clock) (fetch : Fetch) (st : FormState) (view : View) :
  render clock None st = Ret view →
  nowHHMMInTimeZone clock (timezone (draft st)) = Ret (preferred_time (draft st)) →
  let run := saveSubscription clock fetch false view in
  requests run = []
  ∧ toast (after run) = Some {| kind := err; msg := guidance (timezone (draft st)) |}
  ∧ draft (after run) = draft st.
Proof.
  intros Hview Hnow.
  pose proof (render_state _ _ _ _ Hview) as Hst.
  assert (scheduledAheadOk view = false) as Hok.
  { unfold render, useMemo in Hview.
    rewrite (lookahead_fails_at_now clock (draft st) Hnow) in Hview.
    simpl in Hview. by injection Hview as <-. }
  destruct (guard_blocks clock fetch view Hok) as (? & ? & ? & _).
  rewrite Hst in *. done.
Qed.

(** C5, at the input where the code departs from it. The form is
    rendered at 10:00 with a draft for 10:05, so [scheduledAheadOk] is
    memoized as true; a later render at 10:05 finds the dependencies
    unchanged and hands the stored value out again; a normal save at
    10:05, when the draft's time is the current time of its zone, sends
    the request instead of refusing it. *)
Theorem stale_lookahead_sends :
  render (clock_at "10" "00") None waiting_form = Ret waiting_view
  ∧ render (clock_at "10" "05") (v_cell waiting_view) waiting_form = Ret waiting_view
  ∧ nowHHMMInTimeZone (clock_at "10" "05") (timezone (draft waiting_form))
    = Ret (preferred_time (draft waiting_form))
  ∧ ∀ fetch : Fetch,
      requests (saveSubscription (clock_at "10" "05") fetch false waiting_view)
      = [ {| pl_email := js "a@b.com"; pl_timezone := js "UTC";
             pl_preferred_time := js "10:05"; pl_units := metric;
             pl_cities := [js "London"]; pl_is_active := true |} ].
Proof.
  repeat split; try by vm_compute.
  intros fetch. unfold saveSubscription. simpl.
  destruct (fetch _) as [[res|]|]; [|done..].
  destruct (res_text res); [|done]. by destruct (res_ok res).
Qed.

(** ** Restoring the stored draft *)

(** C6, refuted as stated: a stored [preferred_time] of 99:99 does not
    parse as HH:MM, and the restored draft keeps it; the default, 08:30
    here, is not put in its place. *)
Lemma restore_keeps_malformed_time :
  parseHHMM (js "99:99") = None
  ∧ preferred_time (initialDraft (js "UTC") (js "08:30")) = js "08:30"
  ∧ preferred_time
      (restoreDraft ascii_lower stored_bad_time (initialDraft (js "UTC") (js "08:30")))
    = js "99:99".
Proof. by vm_compute. Qed.

Lemma test_HHMM_length (s : list N) : test_HHMM s = true → length s = 5%nat.
Proof.
  unfold test_HHMM. intros [[g1 g2] H]%bool_decide_eq_true.
  by destruct s as [|? [|? [|? [|? [|? [|? ?]]]]]].
Qed.

(** C6, as the code has it. The restored draft takes each field from the
    stored one where it is there and falls back to the draft before
    otherwise; what counts as not there differs per field. A stored
    [preferred_time] is dropped only when it is missing or empty: any
    other is kept, cut to its first five code units, whether or not it is
    a time of the day (a well-formed one is kept whole). A stored
    [timezone] likewise, trimmed. [units] is imperial only for the
    stored string imperial, metric otherwise. [cities] goes through
    [clampCities]. [email] and [is_active] are taken when present. *)
Theorem restore_fieldwise (toLowerCase : list N → list N)
    (parsed : PartialDraft) (prev : Draft) :
  let r := restoreDraft toLowerCase parsed prev in
  (∀ s, p_preferred_time parsed = Some s → s ≠ [] → preferred_time r = take 5 s)
  ∧ (∀ s, p_preferred_time parsed = Some s → test_HHMM s = true → preferred_time r = s)
  ∧ (p_preferred_time parsed = None ∨ p_preferred_time parsed = Some [] →
     preferred_time r = take 5 (or_str (preferred_time prev) (js "09:00")))
  ∧ (∀ s, p_timezone parsed = Some s → s ≠ [] → timezone r = trim s)
  ∧ (p_timezone parsed = None ∨ p_timezone parsed = Some [] →
     timezone r = trim (or_str (timezone prev) (js "UTC")))
  ∧ (units r = imperial ↔ p_units parsed = Some (js "imperial"))
  ∧ (units r = metric ↔ p_units parsed ≠ Some (js "imperial"))
  ∧ cities r = clampCities toLowerCase (default (Some <$> cities prev) (p_cities parsed))
  ∧ cities_ok toLowerCase (cities r)
  ∧ email r = default (email prev) (p_email parsed)
  ∧ is_active r = default (is_active prev) (p_is_active parsed).
Proof.
  simpl. repeat split; try done.
  - intros s -> Hs. by destruct s.
  - intros s -> Hs%test_HHMM_length.
    by destruct s as [|? [|? [|? [|? [|? [|? ?]]]]]].
  - by intros [-> | ->].
  - intros s -> Hs. by destruct s.
  - by intros [-> | ->].
  - by case_bool_decide.
  - intros ->. by rewrite bool_decide_eq_true_2.
  - case_bool_decide; [done|]. intros _. done.
  - case_bool_decide; [done|]. intros _. done.
  - apply clampCities_ok.
  - apply clampCities_ok.
  - apply clampCities_ok.
Qed.

Lemma restore_fieldwise_witness :
  let r := restoreDraft ascii_lower stored_bad_time (initialDraft (js "UTC") (js "08:30")) in
  preferred_time r = take 5 (js "99:99")
  ∧ timezone r = trim (or_str (js "UTC") (js "UTC"))
  ∧ units r = metric
  ∧ cities_ok ascii_lower (cities r).
Proof.
  destruct (restore_fieldwise ascii_lower stored_bad_time
              (initialDraft (js "UTC") (js "08:30")))
    as (Htime & _ & _ & _ & Hzone & _ & Hunits & _ & Hcities & _).
  split; [|split; [|split]].
  - apply Htime; [reflexivity | discriminate].
  - apply Hzone. left. reflexivity.
  - apply Hunits. discriminate.
  - exact Hcities.
Defined.

End SubmitProperties.

(** ** The submission proxy *)

Section ProxyProperties.

Import Proxy.

Variable JSON_parse : list N → option jsval.
Variable Response_error : Z → list N.

(** An unconfigured proxy answers 500 and names the first missing
    variable, before it looks at the request. *)
Lemma POST_unconfigured env req fetch (name : string) :
  first_unset env = Some name →
  POST JSON_parse Response_error env req fetch
  = ([], error_response 500 (js ("Missing " ++ name ++ " env var"))).
Proof.
  unfold first_unset, POST.
  destruct (unset (SUPABASE_URL env)); [by intros [= <-]|].
  destruct (unset (ADMIN_SECRET env)); [by intros [= <-]|].
  destruct (unset (SUPABASE_SERVICE_ROLE_KEY env)); [by intros [= <-]|done].
Qed.

(** A configured proxy goes on to read and check the request. *)
Lemma POST_configured env req fetch :
  first_unset env = None →
  POST JSON_parse Response_error env req fetch
  = match req with
    | Throw e => ([], server_error e)
    | Ret body =>
        if missing_fields body then ([], error_response 400 (js "Missing required fields"))
        else ([request_for env body],
              match up ← fetch (request_for env body); relay JSON_parse Response_error up with
              | Throw e => server_error e
              | Ret response => response
              end)
    end.
Proof.
  unfold first_unset, POST.
  destruct (unset (SUPABASE_URL env)); [done|].
  destruct (unset (ADMIN_SECRET env)); [done|].
  destruct (unset (SUPABASE_SERVICE_ROLE_KEY env)); [done|].
  destruct req as [body|]; [|done].
  destruct (missing_fields body); [done|].
  by destruct (_ ≫= _).
Qed.

Lemma first_unset_None env :
  first_unset env = None
  ↔ unset (SUPABASE_URL env) = false ∧ unset (ADMIN_SECRET env) = false
    ∧ unset (SUPABASE_SERVICE_ROLE_KEY env) = false.
Proof.
  unfold first_unset.
  destruct (unset (SUPABASE_URL env)), (unset (ADMIN_SECRET env)),
    (unset (SUPABASE_SERVICE_ROLE_KEY env)); intuition congruence.
Qed.

(** What the check on the request body looks at. *)
Lemma missing_fields_true body :
  missing_fields body = true
  ↔ truthy (field body "email") = false ∨ truthy (field body "timezone") = false
    ∨ truthy (field body "preferred_time") = false ∨ truthy (field body "units") = false
    ∨ isArray (field body "cities") = false.
Proof.
  unfold missing_fields. rewrite !orb_true_iff, !negb_true_iff. tauto.
Qed.

Lemma written_JObj (fields : list (list N * jsval)) :
  written (JObj fields) = JObj (written_fields fields).
Proof.
  cbn [written]. f_equal.
Qed.

Lemma assoc_absent k (fields : list (list N * jsval)) :
  k ∉ fields.*1 → assoc k fields = JUndefined.
Proof.
  induction fields as [|[k' v] fields IH]; [done|].
  cbn [assoc fmap list_fmap fst]. rewrite not_elem_of_cons. intros [Hne Hk].
  rewrite decide_False by done. by apply IH.
Qed.

Lemma written_fields_keys k (fields : list (list N * jsval)) :
  k ∉ fields.*1 → k ∉ (written_fields fields).*1.
Proof.
  induction fields as [|[k' v] fields IH]; [done|].
  cbn [fmap list_fmap fst]. rewrite not_elem_of_cons. intros [Hne Hk].
  destruct v; cbn [written_fields fmap list_fmap fst]; rewrite ?not_elem_of_cons; auto.
Qed.

(** Reading a property of a written object gives the written value of
    the property, when no key occurs twice; an [undefined] one reads as
    [undefined] before and after. *)
Lemma assoc_written k (fields : list (list N * jsval)) :
  NoDup fields.*1 →
  assoc k (written_fields fields) = written (assoc k fields).
Proof.
  induction fields as [|[k' v] fields IH]; [done|].
  cbn [fmap list_fmap fst]. intros [Hk' Hnd]%NoDup_cons. specialize (IH Hnd).
  cbn [assoc]. destruct (decide (k' = k)) as [->|Hne].
  - destruct v; cbn [written_fields assoc]; rewrite ?decide_True by done; try done.
    by apply assoc_absent, written_fields_keys.
  - by destruct v; cbn [written_fields assoc]; rewrite ?decide_False by done.
Qed.

(** What [JSON.stringify] writes as it is. *)
Lemma written_plain : ∀ v, plain v = true → written v = v.
Proof.
  fix IH 1. intros v. destruct v as [| | b | q | | neg | s | items | fields]; try done.
  - intros Hplain. cbn [written]. f_equal. cbn [plain] in Hplain.
    induction items as [|item items IHitems]; [done|].
    cbn [forallb] in Hplain.
    apply andb_true_iff in Hplain as [[Hdef Hitem]%andb_true_iff Hitems].
    cbn [List.map]. rewrite (IHitems Hitems). f_equal.
    rewrite (IH item Hitem). by destruct item.
  - intros Hplain. rewrite written_JObj. f_equal. cbn [plain] in Hplain.
    induction fields as [|[k x] fields IHfields]; [done|].
    cbn [forallb snd] in Hplain.
    apply andb_true_iff in Hplain as [[Hdef Hx]%andb_true_iff Hfields].
    cbn [written_fields]. rewrite (IHfields Hfields), (IH x Hx). by destruct x.
Qed.

(** The properties of a plain object are plain. *)
Lemma plain_get (v : jsval) (k : list N) : plain v = true → plain (get v k) = true.
Proof.
  destruct v as [| | b | q | | neg | s | items | fields]; try done.
  cbn [plain get]. induction fields as [|[k' x] fields IH]; [done|].
  cbn [forallb snd assoc]. intros [[_ Hx]%andb_true_iff Hfields]%andb_true_iff.
  destruct (decide (k' = k)); [done|by apply IH].
Qed.

(** The object sent upstream reads, at each of the six properties, as
    what [JSON.stringify] writes for that property of the request body,
    and has no other property. *)
Lemma forwarded_object env body k :
  get (json_body (request_for env body)) k
  = if decide (k ∈ forwarded_keys) then written (get (orEmptyObject body) k) else JUndefined.
Proof.
  unfold request_for, upstream_request, stringified. cbn [json_body].
  rewrite written_JObj. cbn [get].
  rewrite assoc_written by (by apply (bool_decide_unpack (NoDup _)); vm_compute).
  unfold forwarded_keys, field. cbn [assoc].
  repeat (destruct (decide (_ = k)) as [<-|?];
          [by rewrite decide_True by (rewrite !elem_of_cons; tauto)|]).
  rewrite decide_False; [done|].
  rewrite !not_elem_of_cons. repeat split; try congruence. apply not_elem_of_nil.
Qed.

End ProxyProperties.

Section ProxyClaims.

Import Proxy.

(** A body that passes the check is an object. *)
Lemma checked_body_object payload :
  missing_fields payload = false → orEmptyObject payload = payload.
Proof.
  unfold missing_fields. intros H. by destruct payload.
Qed.

(** C7, refuted as stated: the upstream answers 201 and the proxy 200. *)
Lemma created_is_answered_200 :
  first_unset env_ok = None
  ∧ missing_fields body_ok = false
  ∧ ∀ (JSON_parse : list N → option jsval) (Response_error : Z → list N),
      status (POST JSON_parse Response_error env_ok (Ret body_ok)
                (fun _ => Ret {| up_status := 201; up_text := js "Created" |})).2
      = 200.
Proof.
  repeat split. intros parse rerr.
  rewrite POST_configured by done.
  change (missing_fields body_ok) with false. cbv iota.
  unfold mbind, outcome_bind, relay. change (up_ok _) with true. simpl negb. cbv iota.
  by destruct (parse _).
Qed.

(** C7, as the code has it. Once the upstream response is in: a failure
    (a status outside 200 to 299) is relayed with its status and its text,
    provided the status is one a response with a body can carry (300 to
    599 other than 304; for any other the constructor throws and the
    proxy answers 500); a success is answered with status 200 whatever
    its own status was, the body being the parsed JSON value written
    anew when the text parses as JSON, and the text itself when it does
    not. *)
Theorem relay_cases (JSON_parse : list N → option jsval) (Response_error : Z → list N)
    (env : Env) (payload : jsval)
    (fetch : UpstreamRequest → outcome UpstreamResponse) (up : UpstreamResponse) :
  first_unset env = None →
  missing_fields payload = false →
  fetch (request_for env payload) = Ret up →
  let resp := (POST JSON_parse Response_error env (Ret payload) fetch).2 in
  if up_ok up
  then status resp = 200
       ∧ body resp = match JSON_parse (up_text up) with
                     | Some v => JsonBody v
                     | None => TextBody (up_text up)
                     end
  else if Response_accepts (up_status up)
  then status resp = up_status up ∧ body resp = TextBody (up_text up)
  else resp = error_response 500 (or_str (Response_error (up_status up)) (js "Server error")).
Proof.
  intros Henv Hvalid Hfetch. rewrite POST_configured by done.
  rewrite Hvalid, Hfetch. unfold mbind, outcome_bind, relay, text_response. simpl.
  destruct (up_ok up); simpl.
  - by destruct (JSON_parse (up_text up)).
  - by destruct (Response_accepts (up_status up)).
Qed.

Lemma relay_cases_witness :
  let resp := (POST (fun _ => None) (fun _ => js "Invalid response status code") env_ok
                 (Ret body_ok)
                 (fun _ => Ret {| up_status := 404; up_text := js "no such function" |})).2 in
  status resp = 404 ∧ body resp = TextBody (js "no such function").
Proof.
  exact (relay_cases (fun _ => None) (fun _ => js "Invalid response status code")
           env_ok body_ok
           (fun _ => Ret {| up_status := 404; up_text := js "no such function" |})
           {| up_status := 404; up_text := js "no such function" |}
           eq_refl eq_refl eq_refl).
Defined.

(** C8, refuted as stated: a body without [cities] sent to a proxy whose
    URL is not configured is answered 500, not 400. *)
Lemma unconfigured_proxy_answers_500 :
  missing_fields body_no_cities = true
  ∧ ∀ (JSON_parse : list N → option jsval) (Response_error : Z → list N) fetch,
      POST JSON_parse Response_error env_no_url (Ret body_no_cities) fetch
      = ([], error_response 500 (js "Missing SUPABASE_URL env var")).
Proof.
  split; [by vm_compute|]. intros parse rerr fetch.
  exact (POST_unconfigured parse rerr env_no_url _ fetch "SUPABASE_URL" eq_refl).
Qed.

(** C8, as the code has it. When one of the three secrets is unset (or
    empty), the proxy answers 500 with an error that names the first of
    them in the order URL, admin secret, service credential, whatever the
    request; when all three are set and the request body lacks a truthy
    [email], [timezone], [preferred_time] or [units], or its [cities] is
    no array, the proxy answers 400 with an error body. In both cases
    nothing is sent upstream. *)
Theorem POST_rejections (JSON_parse : list N → option jsval) (Response_error : Z → list N)
    (env : Env) (req : outcome jsval) (fetch : UpstreamRequest → outcome UpstreamResponse) :
  (unset (SUPABASE_URL env) = true ∨ unset (ADMIN_SECRET env) = true
   ∨ unset (SUPABASE_SERVICE_ROLE_KEY env) = true →
   ∃ name,
     first_unset env = Some name
     ∧ (name = "SUPABASE_URL"%string ∧ unset (SUPABASE_URL env) = true
        ∨ name = "ADMIN_SECRET"%string ∧ unset (ADMIN_SECRET env) = true
        ∨ name = "SUPABASE_SERVICE_ROLE_KEY"%string
          ∧ unset (SUPABASE_SERVICE_ROLE_KEY env) = true)
     ∧ POST JSON_parse Response_error env req fetch
       = ([], error_response 500 (js ("Missing " ++ name ++ " env var"))))
  ∧ (first_unset env = None →
     ∀ payload, req = Ret payload →
       truthy (field payload "email") = false ∨ truthy (field payload "timezone") = false
       ∨ truthy (field payload "preferred_time") = false
       ∨ truthy (field payload "units") = false
       ∨ isArray (field payload "cities") = false →
       POST JSON_parse Response_error env req fetch
       = ([], error_response 400 (js "Missing required fields"))).
Proof.
  split.
  - intros Hunset.
    assert (∃ name, first_unset env = Some name
              ∧ (name = "SUPABASE_URL"%string ∧ unset (SUPABASE_URL env) = true
                 ∨ name = "ADMIN_SECRET"%string ∧ unset (ADMIN_SECRET env) = true
                 ∨ name = "SUPABASE_SERVICE_ROLE_KEY"%string
                   ∧ unset (SUPABASE_SERVICE_ROLE_KEY env) = true))
      as (name & Hname & Hwhich).
    { unfold first_unset.
      destruct (unset (SUPABASE_URL env)); [eexists; split; [done|tauto]|].
      destruct (unset (ADMIN_SECRET env)); [eexists; split; [done|tauto]|].
      destruct (unset (SUPABASE_SERVICE_ROLE_KEY env)); [eexists; split; [done|tauto]|].
      destruct Hunset as [|[|]]; done. }
    exists name. repeat split; [done..|]. by apply POST_unconfigured.
  - intros Henv payload -> Hlacks%missing_fields_true.
    rewrite POST_configured by done. by rewrite Hlacks.
Qed.

Lemma POST_rejections_witness :
  (∃ name,
     first_unset env_no_url = Some name
     ∧ (name = "SUPABASE_URL"%string ∧ unset (SUPABASE_URL env_no_url) = true
        ∨ name = "ADMIN_SECRET"%string ∧ unset (ADMIN_SECRET env_no_url) = true
        ∨ name = "SUPABASE_SERVICE_ROLE_KEY"%string
          ∧ unset (SUPABASE_SERVICE_ROLE_KEY env_no_url) = true)
     ∧ POST (fun _ => None) (fun _ => []) env_no_url (Ret body_ok)
         (fun _ => Throw (js "unreachable"))
       = ([], error_response 500 (js ("Missing " ++ name ++ " env var"))))
  ∧ POST (fun _ => None) (fun _ => []) env_ok (Ret body_no_cities)
      (fun _ => Throw (js "unreachable"))
    = ([], error_response 400 (js "Missing required fields")).
Proof.
  split.
  - apply (proj1 (POST_rejections (fun _ => None) (fun _ => []) env_no_url (Ret body_ok)
                    (fun _ => Throw (js "unreachable")))).
    left. reflexivity.
  - apply (proj2 (POST_rejections (fun _ => None) (fun _ => []) env_ok (Ret body_no_cities)
                    (fun _ => Throw (js "unreachable"))) eq_refl body_no_cities eq_refl).
    do 4 right. reflexivity.
Defined.

(** C9, refuted as stated: a body that passes the check and carries a
    property [note] is sent upstream without it. *)
Lemma extra_field_not_forwarded :
  missing_fields body_with_note = false
  ∧ get body_with_note (js "note") = JStr (js "hi")
  ∧ ∀ (JSON_parse : list N → option jsval) (Response_error : Z → list N) fetch,
      ∃ rq, (POST JSON_parse Response_error env_ok (Ret body_with_note) fetch).1 = [rq]
            ∧ get (json_body rq) (js "note") = JUndefined
            ∧ ¬ same_object (json_body rq) body_with_note.
Proof.
  split; [by vm_compute|]. split; [by vm_compute|].
  intros parse rerr fetch. exists (request_for env_ok body_with_note).
  rewrite POST_configured by done.
  change (missing_fields body_with_note) with false. cbv iota.
  split; [done|].
  split; [by vm_compute|].
  intros Hsame. specialize (Hsame (js "note")). by vm_compute in Hsame.
Qed.

(** C9, as the code has it. For a request body that passes the check,
    the proxy sends one request upstream, whose JSON body has the six
    properties [email], [timezone], [preferred_time], [units], [cities]
    and [is_active] and no other. Each of the six is what
    [JSON.stringify] writes for the value of the request body
    ([is_active] left out when the request has none): the value itself,
    unless an infinity or a negative zero occurs in it, which are written
    as [null] and as [0]. With no such number in it and no property
    besides these six, the request body is sent as it is. *)
Theorem forwards_six_fields (JSON_parse : list N → option jsval)
    (Response_error : Z → list N) (env : Env)
    (payload : jsval) (fetch : UpstreamRequest → outcome UpstreamResponse) :
  first_unset env = None →
  missing_fields payload = false →
  ∃ rq,
    (POST JSON_parse Response_error env (Ret payload) fetch).1 = [rq]
    ∧ (∀ k, k ∈ forwarded_keys → get (json_body rq) k = written (get payload k))
    ∧ (∀ k, k ∈ forwarded_keys → plain (get payload k) = true →
            get (json_body rq) k = get payload k)
    ∧ (∀ k, k ∉ forwarded_keys → get (json_body rq) k = JUndefined)
    ∧ ((∀ k, k ∉ forwarded_keys → get payload k = JUndefined) →
       plain payload = true →
       same_object (json_body rq) payload).
Proof.
  intros Henv Hvalid. exists (request_for env payload).
  rewrite POST_configured by done. rewrite Hvalid.
  pose proof (checked_body_object payload Hvalid) as Hobj.
  split; [done|].
  split; [|split; [|split]].
  - intros k Hk. rewrite forwarded_object, Hobj. by rewrite decide_True.
  - intros k Hk Hplain. rewrite forwarded_object, Hobj, decide_True by done.
    by apply written_plain.
  - intros k Hk. rewrite forwarded_object. by rewrite decide_False.
  - intros Honly Hplain k. rewrite forwarded_object, Hobj.
    destruct (decide (k ∈ forwarded_keys)).
    + by apply written_plain, plain_get.
    + symmetry. by apply Honly.
Qed.

Lemma forwards_six_fields_witness :
  (∃ rq,
     (POST (fun _ => None) (fun _ => []) env_ok (Ret body_ok)
        (fun _ => Throw (js "unreachable"))).1
     = [rq]
     ∧ get (json_body rq) (js "cities") = JArr [JStr (js "London")]
     ∧ get (json_body rq) (js "note") = JUndefined
     ∧ same_object (json_body rq) body_ok)
  ∧ (∃ rq,
       (POST (fun _ => None) (fun _ => []) env_ok (Ret body_with_infinity)
          (fun _ => Throw (js "unreachable"))).1
       = [rq]
       ∧ get body_with_infinity (js "is_active") = JInfinity false
       ∧ get (json_body rq) (js "is_active") = JNull).
Proof.
  split.
  - destruct (forwards_six_fields (fun _ => None) (fun _ => []) env_ok body_ok
                (fun _ => Throw (js "unreachable")) eq_refl eq_refl)
      as (rq & Hsent & _ & Hkeys & Hothers & Hsame).
    exists rq. split; [exact Hsent|]. split; [|split].
    + rewrite Hkeys; [reflexivity| |reflexivity].
      unfold forwarded_keys. rewrite !elem_of_cons. tauto.
    + apply Hothers. unfold forwarded_keys. rewrite !not_elem_of_cons.
      repeat split; try discriminate. apply not_elem_of_nil.
    + apply Hsame; [|reflexivity]. intros k. unfold forwarded_keys.
      rewrite !not_elem_of_cons. intros (? & ? & ? & ? & ? & ? & _).
      unfold body_ok, base_fields, get. simpl.
      repeat (destruct (decide _); [congruence|]). done.
  - destruct (forwards_six_fields (fun _ => None) (fun _ => []) env_ok body_with_infinity
                (fun _ => Throw (js "unreachable")) eq_refl eq_refl)
      as (rq & Hsent & Hwritten & _).
    exists rq. split; [exact Hsent|]. split; [reflexivity|].
    rewrite Hwritten; [reflexivity|].
    unfold forwarded_keys. rewrite !elem_of_cons. tauto.
Defined.



End ProxyClaims.

(** * Further properties of the code *)

(** ** The loose e-mail shape *)

Section EmailProperties.

Import Email.

Lemma matches_nil (s : list N) : matches [] s = true ↔ s = [].
Proof. by destruct s. Qed.

Lemma matches_Char (c : N) (rest : list item) (s : list N) :
  matches (Char c :: rest) s = true ↔ ∃ t, s = c :: t ∧ matches rest t = true.
Proof.
  destruct s as [|x t]; simpl.
  - split; [done|]. by intros (? & ? & _).
  - rewrite andb_true_iff, N.eqb_eq. split.
    + intros [-> H]. by exists t.
    + intros (t' & [= -> ->] & H). done.
Qed.

(** A piece [p+] takes a non-empty run of the class and leaves the rest
    of the string to the rest of the pattern. *)
Lemma matches_OnePlus (p : N → bool) (rest : list item) (s : list N) :
  matches (OnePlus p :: rest) s = true
  ↔ ∃ a b, s = a ++ b ∧ a ≠ [] ∧ forallb p a = true ∧ matches rest b = true.
Proof.
  induction s as [|x t IH].
  - split; [done|]. intros (a & b & Hs & Ha & _). by destruct a.
  - change (matches (OnePlus p :: rest) (x :: t))
      with (p x && (matches rest t || matches (OnePlus p :: rest) t)).
    rewrite andb_true_iff, orb_true_iff, IH. split.
    + intros [Hx [Hrest | (a & b & -> & Ha & Hpa & Hb)]].
      * exists [x], t. simpl. by rewrite Hx.
      * exists (x :: a), b. simpl. by rewrite Hx, Hpa.
    + intros (a & b & Hs & Ha & Hpa & Hb).
      destruct a as [|y a]; [done|]. simpl in Hs, Hpa.
      injection Hs as <- ->. apply andb_true_iff in Hpa as [Hy Hpa].
      split; [done|]. destruct a as [|z a]; [by left|].
      right. by exists (z :: a), b.
Qed.

(** X1. [isEmailLike] accepts exactly the strings that, once trimmed,
    read local@domain.tld with three non-empty parts free of white space
    and of further at-signs (the domain and the tld may hold dots). *)
Theorem isEmailLike_shape (v : list N) :
  isEmailLike v = true
  ↔ ∃ loc dom tld,
      trim v = loc ++ [64%N] ++ dom ++ [46%N] ++ tld
      ∧ loc ≠ [] ∧ dom ≠ [] ∧ tld ≠ []
      ∧ forallb notSpaceOrAt loc = true
      ∧ forallb notSpaceOrAt dom = true
      ∧ forallb notSpaceOrAt tld = true.
Proof.
  unfold isEmailLike, email_pattern. rewrite matches_OnePlus. split.
  - intros (loc & r1 & Hv & Hloc & Hploc & (r2 & -> & H2)%matches_Char).
    apply matches_OnePlus in H2 as (dom & r3 & -> & Hdom & Hpdom & (r4 & -> & H4)%matches_Char).
    apply matches_OnePlus in H4 as (tld & r5 & -> & Htld & Hptld & ->%matches_nil).
    exists loc, dom, tld. by rewrite app_nil_r in *.
  - intros (loc & dom & tld & Hv & Hloc & Hdom & Htld & Hploc & Hpdom & Hptld).
    exists loc, ([64%N] ++ dom ++ [46%N] ++ tld). repeat split; try done.
    apply matches_Char. eexists. split; [done|].
    apply matches_OnePlus. exists dom, ([46%N] ++ tld). repeat split; try done.
    apply matches_Char. eexists. split; [done|].
    apply matches_OnePlus. exists tld, []. rewrite app_nil_r. by repeat split.
Qed.

(** The four sample addresses. *)
Lemma isEmailLike_samples :
  isEmailLike (js "a@b.com") = true
  ∧ isEmailLike (js "a@b") = false
  ∧ isEmailLike (js "a b@c.com") = false
  ∧ isEmailLike (js "@b.com") = false.
Proof. by vm_compute. Qed.

End EmailProperties.

(** ** More time-of-day arithmetic *)

Section MoreTimeProperties.

Import TimeOfDay.

(** The double remainder of [addMinutesHHMMInTimeZone] is the
    mathematical modulus, also for a negative sum. *)
Lemma wrap_is_mod (x : Z) : Z.rem (Z.rem x 1440 + 1440) 1440 = x mod 1440.
Proof. Z.quot_rem_to_equations. Z.div_mod_to_equations. lia. Qed.

(** X2. When both times parse, [minutesUntilSend] is the difference of
    the two minutes of the day modulo 1440: the target counts as
    tomorrow's exactly when it is earlier than now. *)
Theorem minutesUntilSend_mod (clock : Clock) (tz target now : list N) (p q : HHMM) :
  nowHHMMInTimeZone clock tz = Ret now →
  parseHHMM now = Some p →
  parseHHMM target = Some q →
  minutesUntilSend clock tz target
  = Ret (Some ((minutesOfDay (hh q) (mm q) - minutesOfDay (hh p) (mm p)) mod 1440)).
Proof.
  intros Hnow Hp Hq. rewrite (minutesUntilSend_unfold _ _ _ _ Hnow), Hp, Hq. cbv zeta.
  pose proof (parseHHMM_range _ _ Hp) as [Hh Hm].
  pose proof (parseHHMM_range _ _ Hq) as [Hh' Hm'].
  pose proof (minutesOfDay_range p Hh Hm).
  pose proof (minutesOfDay_range q Hh' Hm').
  do 2 f_equal.
  destruct (Z.geb_spec (minutesOfDay (hh q) (mm q)) (minutesOfDay (hh p) (mm p)));
    Z.div_mod_to_equations; lia.
Qed.

Lemma minutesUntilSend_mod_witness :
  minutesUntilSend (clock_at "23" "59") (js "UTC") (js "00:01")
  = Ret (Some ((minutesOfDay 0 1 - minutesOfDay 23 59) mod 1440)).
Proof.
  exact (minutesUntilSend_mod (clock_at "23" "59") (js "UTC") (js "00:01") (js "23:59")
           {| hh := 23; mm := 59 |} {| hh := 0; mm := 1 |} eq_refl eq_refl eq_refl).
Defined.

(** X3. For an integer number of minutes of magnitude up to
    2^53 - 1440, negative ones included, [addMinutesHHMMInTimeZone] writes
    a time that [hhmmToMinutes] reads back as the current minute of the
    day plus that number, modulo 1440. (In that range the sum is exact;
    beyond it the sum is rounded, see [addMinutes_rounds].) *)
Theorem addMinutes_wraps (clock : Clock) (tz now : list N) (p : HHMM) (delta : Z) :
  nowHHMMInTimeZone clock tz = Ret now →
  parseHHMM now = Some p →
  Z.abs delta ≤ 2 ^ 53 - 1440 →
  ∃ t, addMinutesHHMMInTimeZone clock tz delta = Ret t
       ∧ hhmmToMinutes t = Some ((minutesOfDay (hh p) (mm p) + delta) mod 1440).
Proof.
  intros Hnow Hp Hdelta. rewrite (addMinutes_unfold _ _ _ _ _ Hnow Hp).
  pose proof (parseHHMM_range _ _ Hp) as [Hh Hm].
  rewrite nearest_double_minutes, wrap_is_mod by (done || by apply minutesOfDay_range).
  eexists. split; [done|].
  destruct (formatted_parses ((minutesOfDay (hh p) (mm p) + delta) mod 1440))
    as (q & Hq & Hmin); [by apply Z.mod_pos_bound|].
  unfold hhmmToMinutes. by rewrite Hq, Hmin.
Qed.

Lemma addMinutes_wraps_witness :
  ∃ t, addMinutesHHMMInTimeZone (clock_at "00" "01") (js "UTC") (-2) = Ret t
       ∧ hhmmToMinutes t = Some ((minutesOfDay 0 1 + -2) mod 1440).
Proof.
  apply (addMinutes_wraps (clock_at "00" "01") (js "UTC") (js "00:01")
           {| hh := 0; mm := 1 |} (-2)); [reflexivity | reflexivity |].
  vm_compute. discriminate.
Defined.

(** Where the sum leaves the range of exact integers it is rounded to a
    double before the remainder is taken: at ten o'clock, 2^53 - 1
    minutes ahead is written 10:32, one minute off the exact 10:31. *)
Lemma addMinutes_rounds :
  addMinutesHHMMInTimeZone (clock_at "10" "00") (js "UTC") (2 ^ 53 - 1) = Ret (js "10:32")
  ∧ (minutesOfDay 10 0 + (2 ^ 53 - 1)) mod 1440 = minutesOfDay 10 31.
Proof. by vm_compute. Qed.



End MoreTimeProperties.

(** ** More on the city list *)

Section MoreCitiesProperties.

Import Cities TimeOfDay Form Submit.

Variable toLowerCase : list N → list N.

#[local] Abbreviation step := (clamp_step toLowerCase).
#[local] Abbreviation trimmed :=
  (fmap (M := list) (fun raw : option (list N) => trim (default [] raw))).

(** The loop on entries that are trimmed, non-empty and new to [seen]
    and to each other: each one is added. *)
Lemma clamp_loop_fresh (l : list (list N)) :
  ∀ (seen : gset (list N)) (out : list (list N)),
    Forall (fun c => trim c = c ∧ c ≠ []) l →
    NoDup (toLowerCase <$> l) →
    (∀ c, c ∈ l → toLowerCase c ∉ seen) →
    foldl step (seen, out) (Some <$> l)
    = (list_to_set (toLowerCase <$> l) ∪ seen, out ++ l).
Proof.
  induction l as [|c l IH]; intros seen out Hl Hnd Hnew; simpl.
  - by rewrite (left_id_L ∅ (∪)), app_nil_r.
  - apply Forall_cons in Hl as [[Htrim Hne] Hl].
    apply NoDup_cons in Hnd as [Hc Hnd].
    unfold clamp_step at 2. simpl. rewrite Htrim.
    apply falsy_false in Hne. rewrite Hne.
    rewrite decide_False by (apply Hnew; by left).
    rewrite IH; [|done|done|].
    + f_equal; [|by rewrite <- app_assoc].
      rewrite (assoc_L (∪)). f_equal. apply (comm_L (∪)).
    + intros c' Hc' [Hk%elem_of_singleton | Hin]%elem_of_union.
      * apply Hc. rewrite <- Hk. by apply list_elem_of_fmap_2.
      * apply (Hnew c'); [by right|done].
Qed.

(** A canonical list goes through [clampCities] unchanged. *)
Lemma clampCities_fixed (l : list (list N)) :
  canonical toLowerCase l → clampCities toLowerCase (Some <$> l) = l.
Proof.
  intros (Hlen & Hl & Hnd). unfold clampCities, slice0.
  rewrite clamp_loop_fresh by (done || set_solver). simpl.
  by rewrite take_ge.
Qed.

(** The loop only ever puts trimmed, non-empty strings into [out]. *)
Lemma clamp_loop_trimmed (arr : list (option (list N))) :
  ∀ st : clamp_state,
    Forall (fun c => trim c = c ∧ c ≠ []) st.2 →
    Forall (fun c => trim c = c ∧ c ≠ []) (foldl step st arr).2.
Proof.
  induction arr as [|raw arr IH]; intros st Hst; simpl; [done|].
  apply IH. unfold clamp_step.
  destruct (falsy (trim (default [] raw))) eqn:Hblank; [done|].
  destruct (decide _); [done|]. simpl.
  apply Forall_app. split; [done|]. apply Forall_singleton.
  split; [apply trim_idemp | by apply falsy_false].
Qed.

(** What [clampCities] returns is canonical. *)
Lemma clampCities_canonical (arr : list (option (list N))) :
  canonical toLowerCase (clampCities toLowerCase arr).
Proof.
  unfold clampCities, slice0.
  destruct (clamp_loop_inv toLowerCase arr (∅, [])) as (Hnd & _ & _).
  { repeat split; simpl; [apply NoDup_nil_2 | set_solver | set_solver]. }
  pose proof (clamp_loop_trimmed arr (∅, []) (Forall_nil_2 _)) as Htrim.
  split; [|split].
  - rewrite length_take. lia.
  - by apply Forall_take.
  - eapply sublist_NoDup; [done|]. apply fmap_sublist, sublist_take.
Qed.

Lemma canonical_sublist (l1 l2 : list (list N)) :
  l1 `sublist_of` l2 → canonical toLowerCase l2 → canonical toLowerCase l1.
Proof.
  intros Hsub (Hlen & Hl & Hnd). split; [|split].
  - apply sublist_length in Hsub. lia.
  - rewrite Forall_forall in *. intros c Hc. apply Hl. by eapply elem_of_sublist.
  - eapply sublist_NoDup; [done|]. by apply fmap_sublist.
Qed.

(** X5. [clampCities] is idempotent: sanitizing a sanitized list changes
    nothing. *)
Theorem clampCities_idempotent (arr : list (option (list N))) :
  clampCities toLowerCase (Some <$> clampCities toLowerCase arr)
  = clampCities toLowerCase arr.
Proof. apply clampCities_fixed, clampCities_canonical. Qed.

(** What the loop appends is a sublist of the trimmed entries. *)
Lemma clamp_loop_sublist (arr : list (option (list N))) :
  ∀ st : clamp_state,
    ∃ r, (foldl step st arr).2 = st.2 ++ r ∧ r `sublist_of` trimmed arr.
Proof.
  induction arr as [|raw arr IH]; intros st; simpl.
  - exists []. by rewrite app_nil_r.
  - destruct (IH (step st raw)) as (r & Hr & Hsub). rewrite Hr.
    unfold clamp_step.
    destruct (falsy (trim (default [] raw))); [by exists r; split; [|apply sublist_cons]|].
    destruct (decide _); [by exists r; split; [|apply sublist_cons]|]. simpl.
    exists (trim (default [] raw) :: r). split; [by rewrite <- app_assoc|].
    by apply sublist_skip.
Qed.

(** X6. [clampCities] invents and reorders nothing: its result is a
    sublist of the trimmed entries, in their order. *)
Theorem clampCities_sublist (arr : list (option (list N))) :
  clampCities toLowerCase arr `sublist_of` trimmed arr.
Proof.
  unfold clampCities, slice0.
  destruct (clamp_loop_sublist arr (∅, [])) as (r & -> & Hsub). simpl.
  by etrans; [apply sublist_take|].
Qed.

End MoreCitiesProperties.

(** ** The handlers of the city list *)

Section CityHandlers.

Import Cities TimeOfDay Form Submit.

Variable toLowerCase : list N → list N.

Lemma initial_canonical : canonical toLowerCase [js "London"].
Proof.
  split; [simpl; lia|]. split.
  - apply Forall_singleton. by vm_compute.
  - apply NoDup_singleton.
Qed.

Lemma handle_canonical e st :
  canonical toLowerCase (cities (draft st)) →
  canonical toLowerCase (cities (draft (handle toLowerCase e st))).
Proof.
  intros Hok. destruct e; simpl; try done.
  - unfold addCity. destruct (falsy _); [done|]. apply clampCities_canonical.
  - unfold removeCity. destruct (decide _); simpl;
      (eapply canonical_sublist; [apply remove_at_sublist|done]).
  - unfold commitEditCity. destruct (editingIndex st); [|done].
    destruct (falsy _); [done|]. apply clampCities_canonical.
  - destruct stored; simpl; [apply clampCities_canonical|done].
Qed.

(** In every state the form reaches, the city list is canonical. *)
Lemma reachable_canonical st :
  reachable toLowerCase st → canonical toLowerCase (cities (draft st)).
Proof.
  induction 1 as [tz now | e st _ IH | clock clock' cell fetch testNow st view _ IH Hview].
  - apply initial_canonical.
  - by apply handle_canonical.
  - rewrite saveSubscription_cities. by rewrite (render_state _ _ _ _ Hview).
Qed.

(** X7. In every state the form reaches, each city is stored trimmed, and
    sanitizing the list again changes nothing. *)
Theorem reachable_cities_fixed (st : FormState) :
  reachable toLowerCase st →
  Forall (fun c => trim c = c) (cities (draft st))
  ∧ clampCities toLowerCase (Some <$> cities (draft st)) = cities (draft st).
Proof.
  intros Hcanon%reachable_canonical. split; [|by apply clampCities_fixed].
  destruct Hcanon as (_ & Hl & _). eapply Forall_impl; [done|]. by intros c [? _].
Qed.

(** What [clampCities] makes of a canonical list with one more entry. *)
Lemma clampCities_snoc (l : list (list N)) (v : list N) :
  canonical toLowerCase l → trim v = v → v ≠ [] →
  clampCities toLowerCase (Some <$> (l ++ [v]))
  = if decide (toLowerCase v ∈ toLowerCase <$> l) then l
    else if decide (length l = 10%nat) then l
    else l ++ [v].
Proof.
  intros (Hlen & Hl & Hnd) Htrim Hne. unfold clampCities, slice0.
  rewrite fmap_app, foldl_app.
  rewrite clamp_loop_fresh by (done || (intros; apply not_elem_of_empty)).
  simpl. unfold clamp_step. simpl. rewrite Htrim.
  apply falsy_false in Hne. rewrite Hne.
  rewrite (right_id_L ∅ (∪)).
  destruct (decide (toLowerCase v ∈ toLowerCase <$> l)) as [Hin|Hnew].
  - rewrite decide_True by (by apply elem_of_list_to_set). simpl. by rewrite take_ge.
  - rewrite decide_False by (by rewrite elem_of_list_to_set). simpl.
    destruct (decide (length l = 10%nat)) as [Hfull|Hroom].
    + by rewrite take_app_length'.
    + rewrite take_ge; [done|]. rewrite length_app. simpl. lia.
Qed.

(** X8. In a state the form reaches, [addCity] appends the trimmed input
    when it is not blank, no entry has its lowercase form and the list
    has fewer than ten entries; in every other case the list stays as it
    is. *)
Theorem addCity_cities (st : FormState) :
  reachable toLowerCase st →
  cities (draft (addCity toLowerCase st))
  = let l := cities (draft st) in
    let v := trim (cityInput st) in
    if falsy v then l
    else if decide (toLowerCase v ∈ toLowerCase <$> l) then l
    else if decide (length l = 10%nat) then l
    else l ++ [v].
Proof.
  intros Hcanon%reachable_canonical. unfold addCity. cbv zeta.
  destruct (falsy (trim (cityInput st))) eqn:Hblank; [done|]. simpl.
  apply clampCities_snoc; [done|apply trim_idemp|by apply falsy_false].
Qed.

Lemma remove_at_0 (c : list N) (l : list (list N)) : remove_at 0 (c :: l) = l.
Proof.
  unfold remove_at. simpl.
  rewrite (imap_ext _ (const Some)) by done. rewrite imap_const.
  induction l as [|x l IH]; csimpl; [done|]. by f_equal.
Qed.

Lemma remove_at_S (n : nat) (c : list N) (l : list (list N)) :
  remove_at (S n) (c :: l) = c :: remove_at n l.
Proof.
  unfold remove_at. simpl. f_equal. f_equal.
  apply imap_ext. intros i x _. simpl. repeat case_decide; done || lia.
Qed.

(** The filter of [removeCity] deletes the entry at the index. *)
Lemma remove_at_delete (idx : nat) (l : list (list N)) : remove_at idx l = delete idx l.
Proof.
  revert idx. induction l as [|c l IH]; intros [|n]; try done.
  - apply remove_at_0.
  - rewrite remove_at_S, IH. done.
Qed.

(** X9. [removeCity] takes out the entry at the index and nothing else:
    the entries before it keep their place, the ones after it move up
    by one (so an index past the end removes nothing); the entry being
    edited stops being edited when it is the one removed. *)
Theorem removeCity_cities (idx : nat) (st : FormState) :
  (∀ j, cities (draft (removeCity idx st)) !! j
        = if decide (j < idx)%nat then cities (draft st) !! j
          else cities (draft st) !! S j)
  ∧ editingIndex (removeCity idx st)
    = if decide (editingIndex st = Some idx) then None else editingIndex st.
Proof.
  split.
  - intros j.
    assert (cities (draft (removeCity idx st)) = delete idx (cities (draft st))) as ->.
    { unfold removeCity. destruct (decide _); simpl; apply remove_at_delete. }
    destruct (decide (j < idx)%nat).
    + by apply list_lookup_delete_lt.
    + apply list_lookup_delete_ge. lia.
  - unfold removeCity. by destruct (decide _).
Qed.

(** The loop passes over the holes of an array. *)
Lemma clamp_loop_holes (n : nat) (st : clamp_state) :
  foldl (clamp_step toLowerCase) st (replicate n None) = st.
Proof. induction n as [|n IH]; simpl; [done|]. apply IH. Qed.

(** X10. Committing an edit whose index lies past the end of the list
    (the list shrank while the entry was being edited) adds the edited
    value to the list the way [addCity] adds its input. *)
Theorem commitEditCity_stale (st : FormState) (i : nat) :
  editingIndex st = Some i →
  (length (cities (draft st)) ≤ i)%nat →
  cities (draft (commitEditCity toLowerCase st))
  = cities (draft (addCity toLowerCase (setCityInput (editingValue st) st))).
Proof.
  intros Hi Hlen. unfold commitEditCity, addCity. rewrite Hi. simpl.
  destruct (falsy (trim (editingValue st))); [done|]. simpl.
  unfold array_set. rewrite decide_False by lia.
  unfold clampCities. do 2 f_equal.
  rewrite !foldl_app, clamp_loop_holes. by rewrite fmap_app, foldl_app.
Qed.

End CityHandlers.

Lemma reachable_cities_fixed_witness :
  let st := Form.handle Cities.ascii_lower Form.AddCity
              (Form.handle Cities.ascii_lower (Form.TypeCity (js " Paris "))
                 (Form.initialState (js "UTC") (js "10:00"))) in
  Forall (fun c => trim c = c) (Form.cities (Form.draft st))
  ∧ Cities.clampCities Cities.ascii_lower (Some <$> Form.cities (Form.draft st))
    = Form.cities (Form.draft st).
Proof.
  apply (reachable_cities_fixed Cities.ascii_lower).
  do 2 apply Submit.reach_event. apply Submit.reach_init.
Defined.

Lemma addCity_cities_witness :
  let st := Form.handle Cities.ascii_lower (Form.TypeCity (js " Paris "))
              (Form.initialState (js "UTC") (js "10:00")) in
  Form.cities (Form.draft (Form.addCity Cities.ascii_lower st))
  = let l := Form.cities (Form.draft st) in
    let v := trim (Form.cityInput st) in
    if falsy v then l
    else if decide (Cities.ascii_lower v ∈ Cities.ascii_lower <$> l) then l
    else if decide (length l = 10%nat) then l
    else l ++ [v].
Proof.
  apply (addCity_cities Cities.ascii_lower).
  apply Submit.reach_event. apply Submit.reach_init.
Defined.

Lemma commitEditCity_stale_witness :
  let st := Form.setEditing (Some 1%nat) (js " Oslo ")
              (Form.initialState (js "UTC") (js "10:00")) in
  Form.cities (Form.draft (Form.commitEditCity Cities.ascii_lower st))
  = Form.cities (Form.draft (Form.addCity Cities.ascii_lower
                               (Form.setCityInput (Form.editingValue st) st))).
Proof.
  apply (commitEditCity_stale Cities.ascii_lower
           (Form.setEditing (Some 1%nat) (js " Oslo ")
              (Form.initialState (js "UTC") (js "10:00"))) 1%nat).
  - reflexivity.
  - simpl. lia.
Defined.


Section CityEdits.

Import Cities TimeOfDay Form Submit.

Variable toLowerCase : list N → list N.

(** Replacing one entry of a canonical list by a trimmed, non-empty
    string that no other entry matches up to case keeps it canonical. *)
Lemma canonical_insert (l : list (list N)) (i : nat) (v : list N) :
  canonical toLowerCase l → trim v = v → v ≠ [] →
  (∀ j c, j ≠ i → l !! j = Some c → toLowerCase c ≠ toLowerCase v) →
  canonical toLowerCase (<[i := v]> l).
Proof.
  intros (Hlen & Hl & Hnd) Htrim Hne Hother. split; [|split].
  - by rewrite length_insert.
  - by apply Forall_insert.
  - rewrite list_fmap_insert. apply NoDup_alt. intros a b k Ha Hb.
    apply list_lookup_insert_Some in Ha as [(<- & <- & Hlt) | (Hia & Ha)];
      apply list_lookup_insert_Some in Hb as [(Hib & Hk & Hlt') | (Hib & Hb)].
    + done.
    + apply list_lookup_fmap_Some in Hb as (c & Hc & Hb).
      by destruct (Hother b c).
    + subst. apply list_lookup_fmap_Some in Ha as (c & Hc & Ha).
      by destruct (Hother a c).
    + by apply (NoDup_lookup _ a b k Hnd).
Qed.

(** X11. In a state the form reaches, committing an edit of an entry of
    the list with a non-blank value that no other entry matches up to
    case puts the trimmed value in that entry's place and leaves the rest
    of the list as it is. *)
Theorem commitEditCity_replaces (st : FormState) (i : nat) :
  reachable toLowerCase st →
  editingIndex st = Some i →
  (i < length (cities (draft st)))%nat →
  trim (editingValue st) ≠ [] →
  (∀ j c, j ≠ i → cities (draft st) !! j = Some c →
          toLowerCase c ≠ toLowerCase (trim (editingValue st))) →
  cities (draft (commitEditCity toLowerCase st))
  = <[i := trim (editingValue st)]> (cities (draft st)).
Proof.
  intros Hcanon%reachable_canonical Hi Hlt Hne Hother.
  unfold commitEditCity. rewrite Hi.
  rewrite (proj2 (falsy_false _) Hne). simpl.
  unfold array_set. rewrite decide_True by done.
  rewrite <- list_fmap_insert. apply clampCities_fixed.
  apply canonical_insert; [done|apply trim_idemp|done|done].
Qed.

(** X12. What the persist effect stores is restored as it was: for a
    draft with a trimmed, non-empty time zone, a non-empty time of at
    most five code units and a canonical city list, restoring the stored
    copy gives the draft back, whatever the draft it is merged onto. *)
Theorem restore_persisted (d prev : Draft) :
  timezone d ≠ [] → trim (timezone d) = timezone d →
  preferred_time d ≠ [] → (length (preferred_time d) ≤ 5)%nat →
  canonical toLowerCase (cities d) →
  restoreDraft toLowerCase (persisted d) prev = d.
Proof.
  intros Htz Htrim Ht Hlen Hcanon. destruct d as [e tz t u cs a]. simpl in *.
  unfold restoreDraft, persisted, slice0. cbn -[take clampCities trim]. f_equal.
  - by destruct tz.
  - destruct t; [done|]. by apply take_ge.
  - by destruct u.
  - by apply clampCities_fixed.
Qed.

End CityEdits.

Lemma commitEditCity_replaces_witness :
  let st := Form.setEditing (Some 0%nat) (js " Oslo ")
              (Form.initialState (js "UTC") (js "10:00")) in
  Form.cities (Form.draft (Form.commitEditCity Cities.ascii_lower st))
  = <[0%nat := trim (js " Oslo ")]> (Form.cities (Form.draft st)).
Proof.
  apply (commitEditCity_replaces Cities.ascii_lower
           (Form.handle Cities.ascii_lower (Form.TypeEditCity (js " Oslo "))
              (Form.handle Cities.ascii_lower (Form.StartEditCity 0)
                 (Form.initialState (js "UTC") (js "10:00")))) 0%nat).
  - do 2 apply Submit.reach_event. apply Submit.reach_init.
  - reflexivity.
  - simpl. lia.
  - discriminate.
  - intros [|j] c Hj Hc; [done|]. destruct j; discriminate.
Defined.

Lemma restore_persisted_witness :
  Form.restoreDraft Cities.ascii_lower
    (Form.persisted (Form.initialDraft (js "Europe/Paris") (js "10:00")))
    (Form.initialDraft (js "UTC") (js "23:59"))
  = Form.initialDraft (js "Europe/Paris") (js "10:00").
Proof.
  apply (restore_persisted Cities.ascii_lower); try discriminate.
  - reflexivity.
  - simpl. lia.
  - apply initial_canonical.
Defined.

(** ** The entries of the time zone select *)

Section TimezoneOptions.

Import Cities TimeOfDay Form Submit.

(** The loop asks [toLowerCase] only about the trimmed entries. *)
Lemma clamp_loop_ext (f g : list N → list N) (arr : list (option (list N))) :
  ∀ st : clamp_state,
    (∀ raw, raw ∈ arr → f (trim (default [] raw)) = g (trim (default [] raw))) →
    foldl (clamp_step f) st arr = foldl (clamp_step g) st arr.
Proof.
  induction arr as [|raw arr IH]; intros st Hfg; simpl; [done|].
  rewrite IH by (intros; apply Hfg; by right).
  f_equal. unfold clamp_step. by rewrite (Hfg raw) by left.
Qed.

Lemma common_timezones_NoDup : NoDup COMMON_TIMEZONES.
Proof. by apply (bool_decide_unpack (NoDup _)); vm_compute. Qed.

(** Of a list without repetition, a shorter list misses an element. *)
Lemma longer_list_has_more {A} `{EqDecision A} (l k : list A) :
  NoDup l → (length k < length l)%nat → ∃ z, z ∈ l ∧ z ∉ k.
Proof.
  intros Hnd Hlen.
  destruct (decide (Forall (fun z => z ∈ k) l)) as [Hall|Hnot].
  - exfalso. rewrite Forall_forall in Hall.
    pose proof (submseteq_length _ _ (NoDup_submseteq _ _ Hnd Hall)). lia.
  - apply not_Forall_Exists in Hnot; [|apply _].
    apply Exists_exists in Hnot as (z & Hz & Hnz). by exists z.
Qed.

(** X13. The select never offers all eleven common time zones: whatever
    the draft's time zone, at least one of them is cut by the cap of ten
    that [clampCities] puts on the list. *)
Theorem timezoneOptions_drops_one (toLowerCase : list N → list N) (d : Draft) :
  ∃ z, z ∈ COMMON_TIMEZONES ∧ z ∉ timezoneOptions toLowerCase d.
Proof.
  apply longer_list_has_more; [apply common_timezones_NoDup|].
  destruct (clampCities_canonical toLowerCase
              (Some <$> timezone d :: COMMON_TIMEZONES)) as (Hlen & _).
  eapply Nat.le_lt_trans; [exact Hlen|]. vm_compute. lia.
Qed.

(** Evaluates the list of a membership hypothesis. *)
Ltac eval_members H :=
  lazymatch type of H with
  | ?x ∈ ?l => let l' := eval vm_compute in l in change (x ∈ l') in H
  end.

(** Sydney in a list that starts with [t] and goes on with other common
    zones is [t] itself. *)
Ltac sydney_is_head H :=
  apply elem_of_cons in H as [H|H]; [by symmetry|];
  exfalso; revert H; by apply (bool_decide_unpack (_ ∉ _)); vm_compute.

(** The loop over the common zones, started with one entry [t] whose
    lowercase form is [k]: Sydney survives the cap only as that entry. *)
Lemma sydney_cut (k t : list N) :
  js "Australia/Sydney"
    ∈ take 10 (foldl (clamp_step ascii_lower) ({[ k ]}, [t]) (Some <$> COMMON_TIMEZONES)).2 →
  t = js "Australia/Sydney".
Proof.
  destruct (decide (k ∈ ascii_lower <$> COMMON_TIMEZONES)) as [Hin|Hout].
  - apply list_elem_of_fmap in Hin as (c & -> & Hc).
    unfold COMMON_TIMEZONES in Hc. rewrite !elem_of_cons, elem_of_nil in Hc.
    repeat (destruct Hc as [->|Hc]; [intros H; eval_members H; sydney_is_head H|]).
    done.
  - rewrite clamp_loop_fresh.
    + intros H. eval_members H. sydney_is_head H.
    + by apply (bool_decide_unpack (Forall _ _)); vm_compute.
    + by apply (bool_decide_unpack (NoDup _)); vm_compute.
    + intros c Hc Hk%elem_of_singleton. apply Hout. rewrite <- Hk.
      by apply list_elem_of_fmap_2.
Qed.

Lemma foldl_step {A B} (f : A → B → A) (a : A) (x : B) (l : list B) :
  foldl f a (x :: l) = foldl f (f a x) l.
Proof. reflexivity. Qed.

(** On the common zones, which are ASCII, [toLowerCase] is
    [ascii_lower]. *)
Lemma common_lower (toLowerCase : list N → list N)
    (Hascii : ∀ s, isAscii s = true → toLowerCase s = ascii_lower s)
    (st : clamp_state) :
  foldl (clamp_step toLowerCase) st (Some <$> COMMON_TIMEZONES)
  = foldl (clamp_step ascii_lower) st (Some <$> COMMON_TIMEZONES).
Proof.
  apply clamp_loop_ext. apply Forall_forall.
  repeat (apply Forall_cons; split; [apply Hascii; reflexivity|]).
  apply Forall_nil_2.
Qed.

(** With a blank draft zone the select shows the first ten common
    zones, and Sydney is the eleventh. *)
Lemma sydney_not_default :
  js "Australia/Sydney"
    ∉ take 10 (foldl (clamp_step ascii_lower) (∅, []) (Some <$> COMMON_TIMEZONES)).2.
Proof. by apply (bool_decide_unpack (_ ∉ _)); vm_compute. Qed.

Lemma timezoneOptions_unfold (toLowerCase : list N → list N)
    (Hascii : ∀ s, isAscii s = true → toLowerCase s = ascii_lower s) (d : Draft) :
  timezoneOptions toLowerCase d
  = take 10 (foldl (clamp_step ascii_lower)
               (clamp_step toLowerCase (∅, []) (Some (timezone d)))
               (Some <$> COMMON_TIMEZONES)).2.
Proof.
  unfold timezoneOptions, clampCities, slice0.
  rewrite fmap_cons, foldl_step.
  by rewrite (common_lower toLowerCase Hascii).
Qed.

(** The first iteration of the loop. *)
Lemma first_step (toLowerCase : list N → list N) (tz : list N) :
  clamp_step toLowerCase (∅, []) (Some tz)
  = if falsy (trim tz) then (∅, [])
    else ({[ toLowerCase (trim tz) ]}, [trim tz]).
Proof.
  unfold clamp_step. cbn [default from_option id fst snd].
  destruct (falsy (trim tz)); [done|].
  rewrite decide_False by apply not_elem_of_empty.
  by rewrite (right_id_L ∅ (∪)), app_nil_l.
Qed.

(** X14. Australia/Sydney, the last of the common zones, is among the
    entries of the select only when it is the draft's own zone (up to
    surrounding white space): otherwise the cap cuts it. *)
Theorem sydney_needs_current (toLowerCase : list N → list N)
    (Hascii : ∀ s, isAscii s = true → toLowerCase s = ascii_lower s) (d : Draft) :
  js "Australia/Sydney" ∈ timezoneOptions toLowerCase d →
  trim (timezone d) = js "Australia/Sydney".
Proof.
  rewrite (timezoneOptions_unfold toLowerCase Hascii), first_step.
  destruct (falsy (trim (timezone d))).
  - intros H. by apply sydney_not_default in H.
  - apply sydney_cut.
Qed.

End TimezoneOptions.

Lemma sydney_needs_current_witness :
  trim (Form.timezone (Form.initialDraft (js " Australia/Sydney ") (js "10:00")))
  = js "Australia/Sydney".
Proof.
  apply (sydney_needs_current Cities.ascii_lower (fun s _ => eq_refl)
           (Form.initialDraft (js " Australia/Sydney ") (js "10:00"))).
  by apply (bool_decide_unpack (_ ∈ _)); vm_compute.
Defined.

(** ** More on submitting *)

Section MoreSubmitProperties.

Import Cities TimeOfDay Form Submit.

(** Reading the clock either way: [addMinutesHHMMInTimeZone] returns
    whenever [nowHHMMInTimeZone] does. *)
Lemma addMinutes_returns clock tz now delta :
  nowHHMMInTimeZone clock tz = Ret now →
  ∃ t, addMinutesHHMMInTimeZone clock tz delta = Ret t.
Proof.
  intros Hnow. unfold addMinutesHHMMInTimeZone. rewrite Hnow.
  unfold mbind, outcome_bind. destruct (parseHHMM now); by eexists.
Qed.

Lemma or_str_nonempty (a b : list N) : b ≠ [] → or_str a b ≠ [].
Proof. by destruct a. Qed.

(** The ways a run of [saveSubscription] goes once the scheduled time
    is there: refused by the guard, or one request sent and then left
    waiting, failed or saved. *)
Lemma save_cases (clock : Clock) (fetch : Fetch) (testNow : bool) (view : View)
    (scheduled : list N) :
  (if testNow
   then addMinutesHHMMInTimeZone clock (timezone (draft (v_state view))) MIN_AHEAD_MINUTES
   else Ret (preferred_time (draft (v_state view)))) = Ret scheduled →
  let d := draft (v_state view) in
  let st0 := setSavingToast true None (v_state view) in
  let p := EndToEnd.payload_of d scheduled in
  let run := saveSubscription clock fetch testNow view in
  (negb testNow && negb (scheduledAheadOk view) = true
   ∧ run = {| after := setSaving false (showToast err (guidance (timezone d)) st0);
              requests := []; uncaught := None; finished := true |})
  ∨ (negb testNow && negb (scheduledAheadOk view) = false
     ∧ requests run = [p] ∧ uncaught run = None
     ∧ match fetch p with
       | Never => finished run = false ∧ after run = st0
       | Settled (Throw e) =>
           finished run = true
           ∧ after run = setSaving false (showToast err (or_str e (js "Save failed")) st0)
       | Settled (Ret res) =>
           match res_text res with
           | Never => finished run = false ∧ after run = st0
           | Settled read =>
               finished run = true
               ∧ after run
                 = if negb (res_ok res)
                   then setSaving false
                          (showToast err
                             (or_str (or_str (match read with Ret t => t | Throw _ => [] end)
                                        (js "HTTP " ++ String_of_int (res_status res)))
                                (js "Save failed")) st0)
                   else if testNow
                   then setSaving false
                          (setDraft (setPreferredTime scheduled)
                             (showToast ok (savedTestMessage scheduled (timezone d)) st0))
                   else setSaving false (showToast ok (js "Saved") st0)
           end
       end).
Proof.
  intros Hsched. cbv zeta. unfold saveSubscription, EndToEnd.payload_of.
  cbn [draft setSavingToast]. rewrite Hsched.
  destruct (negb testNow && negb (scheduledAheadOk view)); [by left|right].
  split; [done|].
  destruct (fetch _) as [[res|e]|]; [|done..].
  destruct (res_text res) as [read|]; [|done].
  destruct (res_ok res); [|done]. by destruct testNow.
Qed.

(** X15. A normal save, and a test save whose clock can be read, lets no
    exception escape and sends at most one request. When it comes to its
    end, the [saving] flag is back to false and a toast with a non-empty
    message is up. It does not come to its end exactly when the request,
    or the reading of the response's text, never settles: then one
    request is out, [saving] stays true, no toast is up and the draft is
    untouched. *)
Theorem save_settles_or_waits (clock : Clock) (fetch : Fetch) (testNow : bool) (view : View)
    (now : list N) :
  testNow = false
  ∨ nowHHMMInTimeZone clock (timezone (draft (v_state view))) = Ret now →
  let d := draft (v_state view) in
  let run := saveSubscription clock fetch testNow view in
  uncaught run = None
  ∧ (length (requests run) ≤ 1)%nat
  ∧ (finished run = true →
     saving (after run) = false ∧ ∃ t, toast (after run) = Some t ∧ msg t ≠ [])
  ∧ (finished run = false →
     saving (after run) = true ∧ toast (after run) = None ∧ draft (after run) = d)
  ∧ (finished run = false
     ↔ ∃ p, requests run = [p]
            ∧ (fetch p = Never
               ∨ ∃ res, fetch p = Settled (Ret res) ∧ res_text res = Never)).
Proof.
  intros Hclock.
  assert (∃ t, (if testNow
                then addMinutesHHMMInTimeZone clock (timezone (draft (v_state view)))
                       MIN_AHEAD_MINUTES
                else Ret (preferred_time (draft (v_state view)))) = Ret t) as [t Ht].
  { destruct testNow; [|by eexists].
    destruct Hclock as [|Hnow]; [done|]. by eapply addMinutes_returns. }
  cbv zeta.
  destruct (save_cases clock fetch testNow view t Ht) as [[_ ->] | (_ & Hreq & Hun & Hcase)].
  { cbn [uncaught requests finished after]. split; [done|]. split; [simpl; lia|].
    split; [intros _; split; [done|]; eexists; by split|].
    split; [done|]. split; [done|]. by intros (p & [=] & _). }
  rewrite Hreq, Hun. split; [done|]. split; [simpl; lia|].
  destruct (fetch _) as [[res|e]|] eqn:Hfetch.
  - destruct (res_text res) as [read|] eqn:Hread; destruct Hcase as [-> ->].
    + split.
      { intros _. destruct (res_ok res); [destruct testNow|]; cbn [negb].
        - split; [done|]. eexists. by split.
        - split; [done|]. eexists. by split.
        - split; [done|]. eexists. split; [done|]. by apply or_str_nonempty. }
      split; [done|]. split; [done|].
      intros (p & [= <-] & [Hnever | (res' & Hres' & Hnever)]); [congruence|].
      rewrite Hfetch in Hres'. injection Hres' as <-. congruence.
    + split; [done|]. split; [done|]. split; [|done].
      intros _. eexists. split; [done|]. right. by exists res.
  - destruct Hcase as [-> ->]. split.
    { intros _. split; [done|]. eexists. split; [done|]. by apply or_str_nonempty. }
    split; [done|]. split; [done|].
    intros (p & [= <-] & [Hnever | (res' & Hres' & _)]); congruence.
  - destruct Hcase as [-> ->]. split; [done|]. split; [done|]. split; [|done].
    intros _. eexists. split; [done|]. by left.
Qed.

Lemma save_settles_or_waits_witness :
  let d := draft (v_state waiting_view) in
  let fetch : Fetch := fun _ => Never in
  let run := saveSubscription (clock_at "10" "00") fetch true waiting_view in
  uncaught run = None
  ∧ (length (requests run) ≤ 1)%nat
  ∧ (finished run = true →
     saving (after run) = false ∧ ∃ t, toast (after run) = Some t ∧ msg t ≠ [])
  ∧ (finished run = false →
     saving (after run) = true ∧ toast (after run) = None ∧ draft (after run) = d)
  ∧ (finished run = false
     ↔ ∃ p, requests run = [p]
            ∧ (fetch p = Never
               ∨ ∃ res, fetch p = Settled (Ret res) ∧ res_text res = Never)).
Proof.
  apply (save_settles_or_waits (clock_at "10" "00") (fun _ => Never) true waiting_view
           (js "10:00")).
  right. reflexivity.
Defined.

(** X16. A test save whose request is answered with a 2xx status, the
    text of the answer read, puts the scheduled time it sent into
    [preferred_time] and changes nothing else of the draft; and that is
    the only save that changes the draft: a normal save, a refused one,
    a failed one and one that is left waiting keep it as it was. *)
Theorem save_draft (clock : Clock) (fetch : Fetch) (testNow : bool) (view : View) :
  let d := draft (v_state view) in
  let run := saveSubscription clock fetch testNow view in
  (∀ t res read,
     testNow = true →
     addMinutesHHMMInTimeZone clock (timezone d) MIN_AHEAD_MINUTES = Ret t →
     fetch (EndToEnd.payload_of d t) = Settled (Ret res) →
     res_text res = Settled read →
     res_ok res = true →
     requests run = [EndToEnd.payload_of d t]
     ∧ draft (after run) = setPreferredTime t d)
  ∧ (draft (after run) ≠ d →
     testNow = true
     ∧ ∃ t res read,
         addMinutesHHMMInTimeZone clock (timezone d) MIN_AHEAD_MINUTES = Ret t
         ∧ fetch (EndToEnd.payload_of d t) = Settled (Ret res)
         ∧ res_text res = Settled read
         ∧ res_ok res = true).
Proof.
  cbv zeta. split.
  - intros t res read -> Ht Hfetch Hread Hok.
    destruct (save_cases clock fetch true view t Ht) as [[[=] _] | (_ & Hreq & _ & Hcase)].
    split; [done|]. rewrite Hfetch, Hread, Hok in Hcase. by destruct Hcase as [_ ->].
  - intros Hchanged.
    destruct testNow.
    + split; [done|].
      destruct (addMinutesHHMMInTimeZone clock (timezone (draft (v_state view)))
                  MIN_AHEAD_MINUTES) as [t|e] eqn:Ht.
      * destruct (save_cases clock fetch true view t Ht)
          as [[[=] _] | (_ & _ & _ & Hcase)].
        destruct (fetch _) as [[res|e]|] eqn:Hfetch;
          [|by destruct Hcase as [_ Hafter]; rewrite Hafter in Hchanged..].
        destruct (res_text res) as [read|] eqn:Hread;
          [|by destruct Hcase as [_ Hafter]; rewrite Hafter in Hchanged].
        destruct (res_ok res) eqn:Hok;
          [|by destruct Hcase as [_ Hafter]; rewrite Hafter in Hchanged].
        by exists t, res, read.
      * exfalso. apply Hchanged. unfold saveSubscription.
        cbn [draft setSavingToast]. by rewrite Ht.
    + exfalso. apply Hchanged.
      destruct (save_cases clock fetch false view _ eq_refl)
        as [[_ ->] | (_ & _ & _ & Hcase)]; [done|].
      destruct (fetch _) as [[res|e]|];
        [|by destruct Hcase as [_ ->]..].
      destruct (res_text res) as [read|]; [|by destruct Hcase as [_ ->]].
      destruct Hcase as [_ ->]. by destruct (res_ok res).
Qed.

Lemma save_draft_witness :
  let d := draft (v_state waiting_view) in
  let answer := {| res_status := 200; res_text := Settled (Ret (js "{}")) |} in
  let run := saveSubscription (clock_at "23" "59") (fun _ => Settled (Ret answer))
               true waiting_view in
  requests run = [EndToEnd.payload_of d (js "00:01")]
  ∧ draft (after run) = setPreferredTime (js "00:01") d.
Proof.
  apply (proj1 (save_draft (clock_at "23" "59")
                  (fun _ => Settled (Ret {| res_status := 200;
                                            res_text := Settled (Ret (js "{}")) |}))
                  true waiting_view)
           (js "00:01") {| res_status := 200; res_text := Settled (Ret (js "{}")) |}
           (Ret (js "{}")));
    reflexivity.
Defined.

End MoreSubmitProperties.

Section HintProperties.

Import Cities TimeOfDay Form Submit.


(** Across a minute tick the hint contradicts itself: with the first
    reading at 10:00, the third at 10:01 and a draft for 10:00, it says
    today and 1439 minutes. *)
Lemma minAheadHint_tick :
  minAheadHint (clock_at "10" "00") (clock_at "10" "00") (clock_at "10" "01")
    (setPreferredTime (js "10:00") (draft waiting_form))
  = Ret {| nowLocal := js "10:00"; minOk := js "10:02";
           diff := Some 1439; when := Some today |}.
Proof. by vm_compute. Qed.

End HintProperties.


(** ** More on the proxy *)

Section MoreProxyProperties.

Import Proxy.

Variable JSON_parse : list N → option jsval.
Variable Response_error : Z → list N.

(** X18. The proxy sends a request upstream only when its three secrets
    are set, the request body could be read and the body passes the
    check, and then it sends exactly one, the one built from that body;
    in every other case it sends none. *)
Theorem POST_requests (env : Env) (req : outcome jsval)
    (fetch : UpstreamRequest → outcome UpstreamResponse) :
  (POST JSON_parse Response_error env req fetch).1
  = match first_unset env, req with
    | None, Ret payload =>
        if missing_fields payload then [] else [request_for env payload]
    | _, _ => []
    end.
Proof.
  destruct (first_unset env) as [name|] eqn:Henv.
  - by rewrite (POST_unconfigured _ _ _ _ _ name).
  - rewrite POST_configured by done.
    destruct req as [payload|]; [|done]. by destruct (missing_fields payload).
Qed.

(** X19. Whatever the upstream answers, the proxy's own status is 200
    or lies in 300 to 599: it never answers with another 2xx status, nor
    with one below 200. *)
Theorem POST_status (env : Env) (req : outcome jsval)
    (fetch : UpstreamRequest → outcome UpstreamResponse) :
  let st := status (POST JSON_parse Response_error env req fetch).2 in
  st = 200 ∨ 300 ≤ st ≤ 599.
Proof.
  cbv zeta. destruct (first_unset env) as [name|] eqn:Henv.
  - rewrite (POST_unconfigured _ _ _ _ _ name) by done. simpl. lia.
  - rewrite POST_configured by done.
    destruct req as [payload|]; [|simpl; lia].
    destruct (missing_fields payload); [simpl; lia|]. cbn [snd].
    destruct (fetch _) as [up|]; [|simpl; lia].
    unfold mbind, outcome_bind, relay, text_response.
    destruct (up_ok up) eqn:Hok; cbn [negb].
    + destruct (JSON_parse _); [by left|]. change (Response_accepts 200) with true.
      by left.
    + destruct (Response_accepts (up_status up)) eqn:Hacc; [|simpl; lia].
      right. simpl. unfold up_ok in Hok. unfold Response_accepts in Hacc.
      apply andb_true_iff in Hacc as [[H1%Z.leb_le H2%Z.leb_le]%andb_true_iff _].
      apply andb_false_iff in Hok as [Hok%Z.leb_gt | Hok%Z.leb_gt]; lia.
Qed.

(** X20. A request body that is no object (null, a boolean, a number, a
    string, an array) is answered 400 by a configured proxy, and nothing
    is sent upstream. *)
Theorem POST_rejects_non_objects (env : Env) (payload : jsval)
    (fetch : UpstreamRequest → outcome UpstreamResponse) :
  first_unset env = None →
  (∀ fields, payload ≠ JObj fields) →
  POST JSON_parse Response_error env (Ret payload) fetch
  = ([], error_response 400 (js "Missing required fields")).
Proof.
  intros Henv Hobj. rewrite POST_configured by done.
  assert (missing_fields payload = true) as ->; [|done].
  destruct payload; try done. by destruct (Hobj fields).
Qed.

End MoreProxyProperties.

Lemma POST_rejects_non_objects_witness :
  Proxy.POST (fun _ => None) (fun _ => []) Proxy.env_ok
    (Ret (Proxy.JArr [Proxy.JStr (js "a@b.com")])) (fun _ => Throw (js "unreachable"))
  = ([], Proxy.error_response 400 (js "Missing required fields")).
Proof.
  apply (POST_rejects_non_objects (fun _ => None) (fun _ => []) Proxy.env_ok
           (Proxy.JArr [Proxy.JStr (js "a@b.com")]) (fun _ => Throw (js "unreachable"))).
  - reflexivity.
  - discriminate.
Defined.

(** ** From the form to the proxy *)

Section EndToEndProperties.

Import Cities TimeOfDay Form Submit Proxy EndToEnd.

Lemma isEmailLike_nonempty (v : list N) : Email.isEmailLike v = true → trim v ≠ [].
Proof.
  unfold Email.isEmailLike, Email.email_pattern.
  intros (a & b & Hv & Ha & _)%matches_OnePlus. rewrite Hv. by destruct a.
Qed.

(** No decimal digit is white space. *)
Lemma digit_not_space (c : N) : isDigit c = true → isWhiteSpace c = false.
Proof.
  unfold isDigit, isWhiteSpace.
  intros [Hlo%N.leb_le Hhi%N.leb_le]%andb_true_iff.
  apply orb_false_iff. split.
  - apply bool_decide_eq_false. rewrite !elem_of_cons, elem_of_nil. lia.
  - apply andb_false_iff. left. apply N.leb_gt. lia.
Qed.

(** A string that passes [timeValid] has nothing to trim. *)
Lemma test_HHMM_trimmed (s : list N) : test_HHMM s = true → trim s = s.
Proof.
  unfold test_HHMM. intros [[g1 g2] H]%bool_decide_eq_true.
  destruct s as [|a [|b [|c [|d [|e [|? ?]]]]]]; try done.
  unfold exec_HHMM in H.
  destruct (isDigit a) eqn:Ha; [|done]. destruct (isDigit b); [|done].
  destruct (_ =? _)%N; [|done]. destruct (isDigit d); [|done].
  destruct (isDigit e) eqn:He; [|done].
  apply digit_not_space in Ha, He.
  unfold trim, trimStart, trimEnd. simpl. rewrite Ha. simpl. by rewrite He.
Qed.

(** A save that passes the guard sends the draft as it is. *)
Lemma normal_save_sends (clock : Clock) (fetch : Fetch) (view : View) :
  scheduledAheadOk view = true →
  requests (saveSubscription clock fetch false view)
  = [payload_of (draft (v_state view)) (preferred_time (draft (v_state view)))].
Proof.
  intros Hok. unfold saveSubscription, payload_of. cbn [draft setSavingToast negb andb].
  rewrite Hok. cbn [negb].
  destruct (fetch _) as [[res|]|]; [|done..].
  destruct (res_text res); [|done]. by destruct (res_ok res).
Qed.

(** The form's body has the six properties and no other. *)
Lemma payload_json_keys (p : Payload) (k : list N) :
  k ∉ forwarded_keys → get (payload_json p) k = JUndefined.
Proof.
  unfold forwarded_keys. rewrite !not_elem_of_cons.
  intros (? & ? & ? & ? & ? & ? & _). unfold payload_json, get. simpl.
  repeat (destruct (decide _); [congruence|]). done.
Qed.

(** Strings, a list of strings and a boolean: [JSON.stringify] writes
    the form's body as it is. *)
Lemma payload_json_plain (p : Payload) : plain (payload_json p) = true.
Proof.
  unfold payload_json. cbn [plain forallb snd isUndefined negb andb].
  assert (forallb (fun item => negb (isUndefined item) && plain item)
            (JStr <$> pl_cities p) = true) as ->; [|done].
  induction (pl_cities p) as [|c l IH]; [done|]. exact IH.
Qed.

(** X21. Whenever the form lets a draft be saved ([canSave]), the save
    sends one request; the proxy's check passes on its body, and a
    configured proxy sends that body upstream as it received it. *)
Theorem saved_draft_forwarded (JSON_parse : list N → option jsval)
    (Response_error : Z → list N) (env : Env)
    (upstream : UpstreamRequest → outcome UpstreamResponse)
    (clock : Clock) (fetch : Fetch) (view : View) :
  canSave (draft (v_state view)) (scheduledAheadOk view) = true →
  let d := draft (v_state view) in
  let p := payload_of d (preferred_time d) in
  requests (saveSubscription clock fetch false view) = [p]
  ∧ missing_fields (payload_json p) = false
  ∧ (first_unset env = None →
     (POST JSON_parse Response_error env (Ret (payload_json p)) upstream).1
     = [request_for env (payload_json p)]
     ∧ same_object (json_body (request_for env (payload_json p))) (payload_json p)).
Proof.
  unfold canSave. rewrite !andb_true_iff.
  intros ((((Hemail & Htz%Nat.ltb_lt) & Htime) & _) & Hok). cbv zeta.
  split; [by apply normal_save_sends|].
  assert (missing_fields
            (payload_json (payload_of (draft (v_state view))
                             (preferred_time (draft (v_state view))))) = false) as Hvalid.
  { unfold missing_fields, field, payload_json, payload_of, get, orEmptyObject. simpl.
    apply isEmailLike_nonempty in Hemail.
    rewrite (test_HHMM_trimmed _ Htime).
    unfold timeValid in Htime. apply test_HHMM_length in Htime.
    destruct (trim (email (draft (v_state view)))); [done|].
    destruct (trim (timezone (draft (v_state view)))); [simpl in Htz; lia|].
    destruct (preferred_time (draft (v_state view))); [done|].
    by destruct (units (draft (v_state view))). }
  split; [done|]. intros Henv. rewrite POST_configured by done. rewrite Hvalid.
  split; [done|].
  intros k. rewrite forwarded_object.
  destruct (decide (k ∈ forwarded_keys)).
  - apply written_plain, (plain_get (payload_json _)), payload_json_plain.
  - symmetry. by apply payload_json_keys.
Qed.

End EndToEndProperties.

Lemma saved_draft_forwarded_witness :
  let d := Form.draft Submit.waiting_form in
  let p := EndToEnd.payload_of d (Form.preferred_time d) in
  Submit.requests
    (Submit.saveSubscription (TimeOfDay.clock_at "10" "00") (fun _ => Settled (Throw (js "offline")))
       false Submit.waiting_view)
  = [p]
  ∧ Proxy.missing_fields (EndToEnd.payload_json p) = false
  ∧ (Proxy.first_unset Proxy.env_ok = None →
     (Proxy.POST (fun _ => None) (fun _ => []) Proxy.env_ok (Ret (EndToEnd.payload_json p))
        (fun _ => Throw (js "unreachable"))).1
     = [Proxy.request_for Proxy.env_ok (EndToEnd.payload_json p)]
     ∧ Proxy.same_object
         (Proxy.json_body (Proxy.request_for Proxy.env_ok (EndToEnd.payload_json p)))
         (EndToEnd.payload_json p)).
Proof.
  apply (saved_draft_forwarded (fun _ => None) (fun _ => []) Proxy.env_ok
           (fun _ => Throw (js "unreachable")) (TimeOfDay.clock_at "10" "00")
           (fun _ => Settled (Throw (js "offline"))) Submit.waiting_view).
  reflexivity.
Defined.
